(** * Autothrottle: the limits engine and the administrative API

    A shallow embedding of [cmd/autothrottle]: the [Limits] map with
    [NewLimits], [headroom] and [replicationHeadroom], and the override
    bootstrap and HTTP handlers of the admin API.

    Go's [float64] is IEEE 754 binary64; it is embedded as Rocq's primitive
    [float], which is the same format with the same rounding (to nearest,
    ties to even), so that NaN, infinities, signed zeros and rounding are
    those of the program. *)

From Stdlib Require Import ZArith Lia Bool Ascii String Reals Lra Psatz.
From Stdlib Require Import Floats.
From stdpp Require Import base option gmap strings pretty.

Open Scope float_scope.

(** ** Go's [math.Max]

    Special cases first, in the order of the Go source: an infinite
    argument wins over NaN, NaN over everything else, and of two zeros the
    positive one is returned. *)

Definition isPosInf (x : float) : bool := x =? infinity.

Definition go_max (x y : float) : float :=
  if isPosInf x || isPosInf y then infinity
  else if is_nan x || is_nan y then nan
  else if (x =? 0) && (x =? y) then (if get_sign x then y else x)
  else if y <? x then x else y.

(** ** Data *)

(** Go's [error] values are compared with [nil] only; a non-nil error is
    kept as its message. *)
Definition error := string.

(** Modelled from the spec: the struct [kafkametrics.Broker] is declared
    in package [kafkametrics]; its fields are the identity, the instance
    type and the observed outbound ([NetTX]) and inbound ([NetRX]) rates,
    as [headroom] and [replicationHeadroom] read them. *)
Record Broker := {
  ID : Z;
  InstanceType : string;
  NetTX : float;
  NetRX : float
}.

(** [type replicaType string], compared against ["leader"] (a source
    broker) and ["follower"] (a destination broker). *)
Definition replicaType := string.

(** [type Limits map[string]float64]: the four scalar settings live in the
    same map as the capacities, under the keys [minimum], [maximum],
    [srcMax] and [dstMax]. *)
Abbreviation Limits := (gmap string float).

(** [l[k]] for a Go map: the zero value when the key is absent. *)
Definition idx (l : Limits) (k : string) : float := default 0 (l !! k).

Record NewLimitsConfig := {
  Minimum : float;
  Maximum : float;
  SourceMaximum : float;
  DestinationMaximum : float;
  CapacityMap : gmap string float
}.

(** What a Go function hands back: its results, or a run-time panic. *)
Inductive outcome (A : Type) : Type :=
| Returns (a : A)
| Panics (msg : string).
Arguments Returns {A} a.
Arguments Panics {A} msg.

Definition nilDeref : string :=
  "runtime error: invalid memory address or nil pointer dereference".

(** ** [NewLimits] *)

(** The map literal of [NewLimits]. *)
Definition scalarLimits (c : NewLimitsConfig) : Limits :=
  <["dstMax" := DestinationMaximum c]>
    (<["srcMax" := SourceMaximum c]>
      (<["maximum" := Maximum c]>
        (<["minimum" := Minimum c]> ∅))).

(** [for k, v := range c.CapacityMap { lim[k] = v }]. *)
Definition mergeCapacity (lim : Limits) (cm : gmap string float) : Limits :=
  map_fold (λ k v acc, <[k := v]> acc) lim cm.

(** [x > y] on floats is [y < x]. *)
Definition NewLimits (c : NewLimitsConfig) : option Limits * option error :=
  if Minimum c <=? 0 then
    (None, Some "minimum must be > 0"%string)
  else if (Maximum c <=? 0) || (100 <? Maximum c) then
    (None, Some "maximum must be > 0 and < 100"%string)
  else if (SourceMaximum c <=? 0) || (100 <? SourceMaximum c) then
    (None, Some "source maximum must be > 0 and < 100"%string)
  else if (DestinationMaximum c <=? 0) || (100 <? DestinationMaximum c) then
    (None, Some "destination maximum must be > 0 and < 100"%string)
  else
    (Some (mergeCapacity (scalarLimits c) (CapacityMap c)), None).

(** ** [headroom] and [replicationHeadroom] *)

(** The spec's formula for a rate, kept apart from the code below to be
    compared with it: [u1] is the utilization the non-throttle term is
    taken from, [u2] the one compared with the capacity. *)
Definition specRate (capacity u1 u2 prev ratio minimum : float) : float :=
  let nonThrottleUtil := go_max (u1 - prev) 0 in
  let overCap := go_max (u2 - capacity) 0 in
  go_max ((capacity - nonThrottleUtil - overCap) * (ratio / 100)) minimum.

(** Inputs on which the formula stays within the numbers: a finite
    capacity, finite utilizations and previous rate, a portion whose ratio
    to 100 is finite and positive, and a minimum that is not NaN. *)
Definition finiteInputs (capacity u1 u2 prev ratio minimum : float) : Prop :=
  is_finite capacity = true ∧ is_finite u1 = true ∧ is_finite u2 = true ∧
  is_finite prev = true ∧ is_finite (ratio / 100) = true ∧
  (0 <? ratio / 100) = true ∧ is_nan minimum = false.

Definition headroom (l : Limits) (b : option Broker) (t : float)
  : float * option error :=
  match b with
  | None => (idx l "minimum", Some "Nil broker provided"%string)
  | Some b =>
      match l !! InstanceType b with
      | Some capacity =>
          let nonThrottleUtil := go_max (NetTX b - t) 0 in
          let overCap := go_max (NetTX b - capacity) 0 in
          (go_max ((capacity - nonThrottleUtil - overCap)
                   * (idx l "maximum" / 100))
                  (idx l "minimum"),
           None)
      | None => (idx l "minimum", Some "Unknown instance type"%string)
      end
  end.

(** The [switch] on the replica type reads a field of [b] in its first two
    arms, which panics on a nil broker; the default arm returns before [b]
    is touched. *)
Definition replicationHeadroom (l : Limits) (b : option Broker)
    (rt : replicaType) (prevThrottle : float)
  : outcome (float * option error) :=
  let body (b : Broker) (currNetUtilization maxRatio : float) :=
    match l !! InstanceType b with
    | Some capacity =>
        let nonThrottleUtil := go_max (NetTX b - prevThrottle) 0 in
        let overCap := go_max (currNetUtilization - capacity) 0 in
        Returns
          (go_max ((capacity - nonThrottleUtil - overCap) * (maxRatio / 100))
                  (idx l "minimum"),
           None)
    | None => Returns (idx l "minimum", Some "Unknown instance type"%string)
    end in
  if String.eqb rt "leader" then
    match b with
    | Some b => body b (NetTX b) (idx l "srcMax")
    | None => Panics nilDeref
    end
  else if String.eqb rt "follower" then
    match b with
    | Some b => body b (NetRX b) (idx l "dstMax")
    | None => Panics nilDeref
    end
  else Returns (0, Some "invalid replica type"%string).

Close Scope float_scope.

(** * The administrative API *)

Definition nl : string := String "010"%char EmptyString.

(** [strconv.Atoi] of Go's standard library, by its documentation: an
    optional sign, then one or more decimal digits and nothing else, the
    value within the range of a 64-bit [int]. [initAPI] observes only
    whether the error is nil, so a failure carries no detail. *)
Definition digitVal (c : ascii) : option Z :=
  let n := Z.of_N (Ascii.N_of_ascii c) in
  if (48 <=? n)%Z && (n <=? 57)%Z then Some (n - 48)%Z else None.

Fixpoint parseDigits (s : string) (acc : Z) : option Z :=
  match s with
  | EmptyString => Some acc
  | String c r =>
      match digitVal c with
      | Some d => parseDigits r (acc * 10 + d)%Z
      | None => None
      end
  end.

Definition Atoi (s : string) : option Z :=
  let '(neg, body) :=
    match s with
    | String "-"%char r => (true, r)
    | String "+"%char r => (false, r)
    | _ => (false, s)
    end in
  match body with
  | EmptyString => None
  | _ =>
      match parseDigits body 0 with
      | Some n =>
          let v := if neg then (- n)%Z else n in
          if (- 2 ^ 63 <=? v)%Z && (v <=? 2 ^ 63 - 1)%Z then Some v else None
      | None => None
      end
  end.

(** [fmt]'s [%v] of a bool. *)
Definition showBool (b : bool) : string := if b then "true" else "false".

Record APIConfig := {
  Listen : string;
  ZKPrefix : string;
  RateSetting : string
}.

(** Modelled from the spec: the struct [ThrottleOverrideConfig] is
    declared next to the override functions, outside [api.go]; the record
    is [{rate, autoRemove}], the rate an integer number of MB/s with 0 for
    unset. *)
Record ThrottleOverrideConfig := {
  Rate : Z;
  AutoRemove : bool
}.

Definition overrideRateZnode : string := "override_rate".
Definition incorrectMethod : string := "disallowed method" +:+ nl.

(** Modelled from the spec: the interface [kafkazk.Handler] is declared
    in package [kafkazk], a client of a hierarchical key/value store with
    get, set, create and exists. The store is passed explicitly: a read
    returns its result, a write the new store, each with Go's error. *)
Class Handler (ZK : Type) := {
  zkExists : ZK → string → bool * option error;
  zkCreate : ZK → string → string → ZK * option error;
  zkGet : ZK → string → string * option error;
  zkSet : ZK → string → string → ZK * option error
}.

(** Modelled from the spec: a store in memory for the examples, with the
    usual semantics of the coordination service (no node is created
    twice, none is read or set before it exists). *)
Definition memStore := gmap string string.

#[export] Instance memHandler : Handler memStore := {
  zkExists m p := (bool_decide (is_Some (m !! p)), None);
  zkCreate m p d :=
    match m !! p with
    | Some _ => (m, Some "node already exists"%string)
    | None => (<[p := d]> m, None)
    end;
  zkGet m p :=
    match m !! p with
    | Some d => (d, None)
    | None => (EmptyString, Some "node does not exist"%string)
    end;
  zkSet m p d :=
    match m !! p with
    | Some _ => (<[p := d]> m, None)
    | None => (m, Some "node does not exist"%string)
    end
}.

(** [http.Request], as far as the handlers look at it themselves. *)
Record Request := {
  Method : string;
  URLPath : string;
  RawQuery : string
}.

(** [http.ResponseWriter]: the status set by [WriteHeader], if any, and
    the body written so far. *)
Record Response := {
  status : option Z;
  body : string
}.

Definition WriteHeader (code : Z) (w : Response) : Response :=
  {| status := Some code; body := body w |}.

Definition WriteString (s : string) (w : Response) : Response :=
  {| status := status w; body := body w +:+ s |}.

(** How [initAPI] ends: [log.Fatal] stops the process, and otherwise the
    routes are served with the settings it has written. The store is
    outside the process, so it is reported in both cases. *)
Inductive boot (ZK : Type) : Type :=
| Fatal (e : error) (zk : ZK)
| Serving (c : APIConfig) (overrideRateZnodePath : string) (zk : ZK)
          (logged : list string).
Arguments Fatal {ZK} e zk.
Arguments Serving {ZK} c overrideRateZnodePath zk logged.

Section Overrides.
Context {ZK : Type} `{!Handler ZK}.

(** Modelled from the spec: the serialization of the override record,
    which the spec leaves to the implementation. *)
Variable encode : ThrottleOverrideConfig → string.
Variable decode : string → option ThrottleOverrideConfig.

(** Modelled from the spec: [setThrottleOverride] is defined outside
    [api.go]; [set(config)] serializes the record and overwrites the
    stored one as a whole. *)
Definition specSetThrottleOverride (zk : ZK) (p : string)
    (c : ThrottleOverrideConfig) : ZK * option error :=
  zkSet zk p (encode c).

(** Modelled from the spec: [getThrottleOverride] is defined outside
    [api.go]; [get()] deserializes the stored record and fails with a
    decode error when it is in no recognized format. *)
Definition specGetThrottleOverride (zk : ZK) (p : string)
  : option ThrottleOverrideConfig * option error :=
  match zkGet zk p with
  | (_, Some e) => (None, Some e)
  | (d, None) =>
      match decode d with
      | Some c => (Some c, None)
      | None => (None, Some "Error unmarshalling override config"%string)
      end
  end.
End Overrides.

Section API.
Context {ZK : Type} `{!Handler ZK}.

(** The functions that [api.go] calls and that are defined outside it:
    the two override functions, which are handed the store, and the
    request helpers, which are handed the request and nothing else. The
    functions of [api.go] are embedded over them. *)
Variable setThrottleOverride :
  ZK → string → ThrottleOverrideConfig → ZK * option error.
Variable getThrottleOverride :
  ZK → string → option ThrottleOverrideConfig * option error.
Variable parseRateParam : Request → Z * option error.
Variable parseAutoRemoveParam : Request → bool * option error.
Variable parsePaths : Request → list string.
Variable logReq : Request → string.

(** [initAPI], up to the registration of the routes: the bootstrap of
    the override record and the migration of the legacy format. *)
Definition initAPI (c : APIConfig) (zk : ZK) : boot ZK :=
  let c := {| Listen := Listen c; ZKPrefix := ZKPrefix c;
              RateSetting := overrideRateZnode |} in
  let overrideRateZnodePath :=
    "/" +:+ ZKPrefix c +:+ "/" +:+ overrideRateZnode in
  match zkExists zk overrideRateZnodePath with
  | (_, Some err) => Fatal err zk
  | (false, None) =>
      match zkCreate zk ("/" +:+ ZKPrefix c) EmptyString with
      | (zk1, Some err) => Fatal err zk1
      | (zk1, None) =>
          match zkCreate zk1 overrideRateZnodePath EmptyString with
          | (zk2, Some err) => Fatal err zk2
          | (zk2, None) => Serving c overrideRateZnodePath zk2 []
          end
      end
  | (true, None) =>
      let '(r, _) := zkGet zk overrideRateZnodePath in
      match Atoi r with
      | Some rate =>
          match setThrottleOverride zk overrideRateZnodePath
                  {| Rate := rate; AutoRemove := false |} with
          | (zk1, Some err) => Fatal err zk1
          | (zk1, None) =>
              Serving c overrideRateZnodePath zk1
                ["Throttle override config format updated"%string]
          end
      | None => Serving c overrideRateZnodePath zk []
      end
  end.

(** The handlers. [overrideRateZnodePath] is the package variable that
    [initAPI] sets; a handler returns the response and the store. *)
Variable overrideRateZnodePath : string.

Definition getThrottle (w : Response) (req : Request) (zk : ZK)
  : Response * ZK :=
  match getThrottleOverride zk overrideRateZnodePath with
  | (_, Some err) => (WriteString err w, zk)
  | (None, None) => (w, zk)
  | (Some r, None) =>
      if (Rate r =? 0)%Z then
        (WriteString ("no throttle override is set" +:+ nl) w, zk)
      else
        (WriteString ("a throttle override is configured at "
                      +:+ pretty (Rate r) +:+ "MB/s, autoremove=="
                      +:+ showBool (AutoRemove r) +:+ nl) w, zk)
  end.

Definition setThrottle (w : Response) (req : Request) (zk : ZK)
  : Response * ZK :=
  match parseRateParam req with
  | (_, Some err) => (WriteString err w, zk)
  | (rate, None) =>
      match parseAutoRemoveParam req with
      | (_, Some err) => (WriteString err w, zk)
      | (autoRemove, None) =>
          let rateCfg := {| Rate := rate; AutoRemove := autoRemove |} in
          let paths := parsePaths req in
          match setThrottleOverride zk overrideRateZnodePath rateCfg with
          | (zk1, Some err) => (WriteString (err +:+ nl) w, zk1)
          | (zk1, None) =>
              (WriteString ("throttle successfully set to "
                            +:+ pretty rate +:+ "MB/s, autoremove=="
                            +:+ showBool autoRemove +:+ nl) w, zk1)
          end
      end
  end.

Definition removeThrottle (w : Response) (req : Request) (zk : ZK)
  : Response * ZK :=
  let c := {| Rate := 0; AutoRemove := false |} in
  match setThrottleOverride zk overrideRateZnodePath c with
  | (zk1, Some err) => (WriteString (err +:+ nl) w, zk1)
  | (zk1, None) =>
      (WriteString ("throttle successfully removed" +:+ nl) w, zk1)
  end.

(** The two dispatchers log the request, then switch on the method; the
    log lines go to the third component. *)
Definition throttleGetSet (w : Response) (req : Request) (zk : ZK)
  : Response * ZK * list string :=
  let logged := [logReq req] in
  if String.eqb (Method req) "GET" then
    (getThrottle w req zk, logged)
  else if String.eqb (Method req) "POST" then
    (setThrottle w req zk, logged)
  else
    (WriteString incorrectMethod (WriteHeader 405 w), zk, logged).

Definition throttleRemove (w : Response) (req : Request) (zk : ZK)
  : Response * ZK * list string :=
  let logged := [logReq req] in
  if String.eqb (Method req) "POST" then
    (removeThrottle w req zk, logged)
  else
    (WriteString incorrectMethod (WriteHeader 405 w), zk, logged).
End API.

(** * Properties of the limits engine *)

(** ** The order of binary64, through its specification *)

Section FloatOrder.
Local Open Scope float_scope.

Lemma SFcompare_antisym x y :
  SFcompare y x = option_map CompOpp (SFcompare x y).
Proof.
  destruct x as [sx|sx| |sx mx ex], y as [sy|sy| |sy my ey]; simpl;
    try reflexivity; try (destruct sx; reflexivity);
    try (destruct sy; reflexivity); try (destruct sx, sy; reflexivity); [].
  f_equal. rewrite (Z.compare_antisym ex ey).
  pose proof (Pos.compare_cont_antisym mx my Eq) as A; simpl in A.
  rewrite <- A.
  destruct sx, sy; simpl; try reflexivity;
    destruct (ex ?= ey)%Z; simpl; reflexivity.
Qed.

Lemma SFcompare_refl x : x ≠ S754_nan → SFcompare x x = Some Eq.
Proof.
  destruct x as [s|s| |s m e]; simpl; try congruence; intros _.
  - destruct s; reflexivity.
  - rewrite Z.compare_refl.
    change (Pos.compare_cont Eq m m) with (m ?= m)%positive.
    rewrite Pos.compare_refl. destruct s; reflexivity.
Qed.

Lemma SFcompare_some x y :
  x ≠ S754_nan → y ≠ S754_nan → ∃ c, SFcompare x y = Some c.
Proof. destruct x, y; simpl; try congruence; eauto. Qed.

Lemma is_nan_spec x : is_nan x = true ↔ Prim2SF x = S754_nan.
Proof.
  unfold is_nan. rewrite FloatAxioms.eqb_spec. unfold SFeqb.
  destruct (Prim2SF x) as [s|s| |s m e] eqn:E.
  - simpl. split; congruence.
  - destruct s; simpl; split; congruence.
  - simpl. tauto.
  - rewrite SFcompare_refl by congruence. simpl. split; congruence.
Qed.

Lemma not_nan_spec x : is_nan x = false ↔ Prim2SF x ≠ S754_nan.
Proof.
  rewrite <- is_nan_spec. destruct (is_nan x); split; congruence.
Qed.

(** On numbers the order is total: what is not below is at least. *)
Lemma not_ltb_leb a b :
  is_nan a = false → is_nan b = false → (a <? b) = false →
  (b <=? a) = true.
Proof.
  intros Na%not_nan_spec Nb%not_nan_spec.
  rewrite FloatAxioms.ltb_spec, FloatAxioms.leb_spec. unfold SFltb, SFleb.
  destruct (SFcompare_some _ _ Na Nb) as [c Hc].
  rewrite (SFcompare_antisym (Prim2SF a)), Hc.
  destruct c; simpl; congruence.
Qed.

(** What [go_max] returns, case by case. *)
Lemma go_max_cases x y :
  go_max x y = infinity ∨ go_max x y = nan ∨
  (go_max x y = x ∧ is_nan x = false ∧ is_nan y = false ∧
     ((y <? x) = true ∨ (x =? y) = true)) ∨
  (go_max x y = y ∧ is_nan x = false ∧ is_nan y = false ∧
     (y <? x) = false).
Proof.
  unfold go_max.
  destruct (isPosInf x || isPosInf y); [tauto|].
  destruct (is_nan x) eqn:Nx; [simpl; tauto|].
  destruct (is_nan y) eqn:Ny; [simpl; tauto|]. simpl.
  destruct ((x =? 0) && (x =? y)) eqn:Z.
  - apply andb_prop in Z as [Z1 Z2].
    destruct (get_sign x).
    + right; right; right. repeat split; auto.
      rewrite FloatAxioms.ltb_spec. rewrite FloatAxioms.eqb_spec in Z2.
      unfold SFltb, SFeqb in *. rewrite SFcompare_antisym.
      destruct (SFcompare (Prim2SF x) (Prim2SF y)) as [[]|];
        simpl in *; congruence.
    + right; right; left. repeat split; auto.
  - destruct (y <? x) eqn:L.
    + right; right; left. repeat split; auto.
    + right; right; right. repeat split; auto.
Qed.

(** [math.Max(x, m)] is never below [m], whatever [x] and [m] are. *)
Lemma go_max_not_below x m : (go_max x m <? m) = false.
Proof.
  destruct (go_max_cases x m) as [H|[H|[(H&Nx&Nm&C)|(H&Nx&Nm&C)]]];
    rewrite H.
  - rewrite FloatAxioms.ltb_spec.
    change (Prim2SF infinity) with (S754_infinity false).
    destruct (Prim2SF m) as [s|s| |s mm e]; try destruct s; reflexivity.
  - rewrite FloatAxioms.ltb_spec. reflexivity.
  - rewrite FloatAxioms.ltb_spec.
    rewrite FloatAxioms.ltb_spec, FloatAxioms.eqb_spec in C.
    unfold SFltb, SFeqb in *. destruct C as [C|C].
    + rewrite SFcompare_antisym.
      destruct (SFcompare (Prim2SF m) (Prim2SF x)) as [[]|];
        simpl in *; congruence.
    + destruct (SFcompare (Prim2SF x) (Prim2SF m)) as [[]|];
        simpl in *; congruence.
  - rewrite FloatAxioms.ltb_spec. unfold SFltb.
    apply not_nan_spec in Nm. rewrite SFcompare_refl; [reflexivity|done].
Qed.

(** [math.Max(x, m)] is at least [m] as soon as both are numbers. *)
Lemma go_max_ge x m :
  is_nan m = false → is_nan (go_max x m) = false →
  (m <=? go_max x m) = true.
Proof.
  intros Nm Nr. apply not_ltb_leb; auto using go_max_not_below.
Qed.
End FloatOrder.

(** ** Rounding in binary64

    Subtraction and multiplication in binary64 round the exact result to
    nearest, ties to even. What follows derives, from the executable
    specification of the format, that this rounding keeps the order of
    the exact results, so that the operations are monotone wherever they
    do not produce NaN. The steps:

    - [binary_round_aux_char]: what the rounding function of the
      specification returns, in terms of integers;
    - [rounds_to_mono]: rounding to nearest, ties to even, keeps the order
      of the reals;
    - [SFcompare_rk]: the comparison of valid floats is the comparison of
      their values;
    - [SFsub_mono], [SFmul_mono]: subtraction keeps the order in its first
      argument and reverses it in its second, multiplication by what is
      not negative keeps it;
    - [specRate_monotone], [specRate_number]: the same for the formula of
      the rate, and the inputs on which the rate is a number. *)

Section Shifting.
Local Open Scope Z_scope.

(** *** Shifting a mantissa right and rounding it

    [shr] shifts bit by bit and keeps a round bit and a sticky bit;
    [round_nearest_even] then decides from the two. Together they round
    [M / 2^k] to the nearest integer, ties to even. *)

Lemma iter_pos_iter {A} (f : A -> A) p x : SpecFloat.iter_pos f p x = Pos.iter f x p.
Proof.
  revert x. induction p; intros x; simpl.
  - rewrite !IHp, !Pos.iter_swap. reflexivity.
  - rewrite !IHp. reflexivity.
  - reflexivity.
Qed.

Lemma shr_1_nonneg m r s :
  0 <= m ->
  shr_1 {| shr_m := m; shr_r := r; shr_s := s |} =
  {| shr_m := m / 2; shr_r := Z.odd m; shr_s := r || s |}.
Proof.
  intros Hm. rewrite <- Z.div2_div.
  destruct m as [|[p|p|]|]; try reflexivity. lia.
Qed.

(** The record after [p] shifts of [M]. *)
Definition shifted (M : Z) (p : positive) (rec : shr_record) : Prop :=
  0 <= shr_m rec /\
  exists lo, 0 <= lo < 2 ^ (Z.pos p - 1) /\
    M = shr_m rec * 2 ^ Z.pos p
        + (if shr_r rec then 2 ^ (Z.pos p - 1) else 0) + lo /\
    (shr_s rec = true <-> 0 < lo).

Lemma shifted_iter M p :
  0 <= M ->
  shifted M p (SpecFloat.iter_pos shr_1 p {| shr_m := M; shr_r := false; shr_s := false |}).
Proof.
  intros HM. rewrite iter_pos_iter.
  apply (Pos.iter_ind _ shr_1 _ (shifted M)).
  - rewrite shr_1_nonneg by assumption. unfold shifted; cbn [shr_m shr_r shr_s]. split.
    + apply Z.div_pos; lia.
    + exists 0. change (2 ^ (1 - 1)) with 1. change (2 ^ 1) with 2.
      split; [lia|]. split; [|split; [discriminate|intros; exfalso; lia]].
      pose proof (Z.div2_odd M) as H. rewrite Z.div2_div in H.
      destruct (Z.odd M); unfold Z.b2z in H; lia.
  - intros q [m r s] (Hm & lo & Hlo & HM' & Hs).
    cbn [shr_m shr_r shr_s] in Hm, HM', Hs.
    rewrite shr_1_nonneg by assumption. unfold shifted; cbn [shr_m shr_r shr_s]. split.
    + apply Z.div_pos; lia.
    + rewrite Pos2Z.inj_succ.
      replace (Z.succ (Z.pos q) - 1) with (Z.pos q) by lia.
      assert (E : 2 ^ Z.pos q = 2 * 2 ^ (Z.pos q - 1)).
      { rewrite <- Z.pow_succ_r by lia. f_equal. lia. }
      rewrite Z.pow_succ_r by lia.
      exists ((if r then 2 ^ (Z.pos q - 1) else 0) + lo).
      pose proof (Z.div2_odd m) as H. rewrite Z.div2_div in H.
      assert (0 < 2 ^ (Z.pos q - 1)) by (apply Z.pow_pos_nonneg; lia).
      split; [destruct r; lia|]. split.
      * remember (m / 2) as D eqn:HD. remember (2 ^ (Z.pos q - 1)) as P.
        rewrite !E in HM' |- *. clear HD E.
        destruct (Z.odd m); unfold Z.b2z in H; subst m; destruct r; nia.
      * destruct Hs as [Hs1 Hs2].
        destruct r, s; cbn [orb]; split; intros; try reflexivity;
          try discriminate; try lia;
          try (specialize (Hs1 eq_refl); lia); apply Hs2; lia.
Qed.

(** [n] is [M / 2^k] rounded to nearest, ties to even. *)
Definition rne_spec (M k n : Z) : Prop :=
  0 <= n /\ 2 * Z.abs (n * 2 ^ k - M) <= 2 ^ k /\
  (2 * Z.abs (n * 2 ^ k - M) = 2 ^ k -> Z.even n = true).

Lemma rne_spec_exact M : 0 <= M -> rne_spec M 0 M.
Proof.
  intros H. unfold rne_spec. change (2 ^ 0) with 1.
  split; [lia|]. split; [lia|intros; exfalso; lia].
Qed.

Lemma rne_spec_shifted M p rec :
  shifted M p rec ->
  rne_spec M (Z.pos p)
    (round_nearest_even (shr_m rec) (loc_of_shr_record rec)).
Proof.
  destruct rec as [m r s]. intros (Hm & lo & Hlo & HM & Hs).
  cbn [shr_m shr_r shr_s loc_of_shr_record] in *.
  assert (E : 2 ^ Z.pos p = 2 * 2 ^ (Z.pos p - 1)).
  { rewrite <- Z.pow_succ_r by lia. f_equal. lia. }
  assert (0 < 2 ^ (Z.pos p - 1)) by (apply Z.pow_pos_nonneg; lia).
  set (h := 2 ^ (Z.pos p - 1)) in *. rewrite E in *. clearbody h.
  assert (Hs' : s = false -> lo = 0).
  { intros ->. destruct (Z.eq_dec lo 0); auto. destruct Hs as [_ Hs].
    assert (0 < lo) by lia. specialize (Hs H0). discriminate. }
  assert (Hs'' : s = true -> 0 < lo) by (apply Hs).
  clear Hs. unfold rne_spec.
  destruct r, s; cbn [round_nearest_even];
    try specialize (Hs' eq_refl); try specialize (Hs'' eq_refl).
  - (* above the middle *) split; [lia|]. split; [nia|]. intros; exfalso; nia.
  - (* a tie *) subst lo. destruct (Z.even m) eqn:Ev.
    + split; [lia|]. split; [nia|]. auto.
    + split; [lia|]. split; [nia|]. intros _.
      rewrite Z.even_add, Ev. reflexivity.
  - (* below the middle *) split; [lia|]. split; [nia|]. intros; exfalso; nia.
  - (* exact *) subst lo. split; [lia|]. split; [nia|]. intros; exfalso; nia.
Qed.

(** *** The number of binary digits *)

Lemma digits2_pos_spec m :
  2 ^ (Z.pos (digits2_pos m) - 1) <= Z.pos m < 2 ^ Z.pos (digits2_pos m).
Proof.
  induction m as [p IH|p IH|]; cbn [digits2_pos].
  - rewrite Pos2Z.inj_succ.
    replace (Z.succ (Z.pos (digits2_pos p)) - 1) with (Z.succ (Z.pos (digits2_pos p) - 1)) by lia.
    rewrite !Z.pow_succ_r by lia. lia.
  - rewrite Pos2Z.inj_succ.
    replace (Z.succ (Z.pos (digits2_pos p)) - 1) with (Z.succ (Z.pos (digits2_pos p) - 1)) by lia.
    rewrite !Z.pow_succ_r by lia. lia.
  - change (2 ^ (1 - 1)) with 1. change (2 ^ 1) with 2. lia.
Qed.

Lemma Zdigits2_le n j : 0 <= j -> 0 <= n < 2 ^ j -> Zdigits2 n <= j.
Proof.
  intros Hj [H0 H1]. destruct n as [|p|p]; simpl; try lia.
  pose proof (digits2_pos_spec p) as [L _].
  assert (2 ^ (Z.pos (digits2_pos p) - 1) < 2 ^ j) by lia.
  apply Z.pow_lt_mono_r_iff in H; lia.
Qed.

(** *** What [binary_round_aux] returns *)

Definition fexp64 (e : Z) : Z := Z.max (e - 53) (-1074).

Lemma fexp64_eq e : fexp 53 1024 e = fexp64 e.
Proof. reflexivity. Qed.

(** The float that stands for the rounded mantissa [n] at exponent [e']:
    the same value when it fits, an infinity when it is too large. *)
Definition result_of (s : bool) (n e' : Z) (F : spec_float) : Prop :=
  match F with
  | S754_zero s' => s' = s /\ n = 0
  | S754_finite s' m e =>
      s' = s /\ e <= 971 /\ e' <= e /\ Z.pos m * 2 ^ (e - e') = n
  | S754_infinity s' => s' = s /\ (0 < n)%Z /\ 2 ^ (1024 - e') <= n
  | S754_nan => False
  end.

Lemma shr_nonpos mrs e n : n <= 0 -> shr mrs e n = (mrs, e).
Proof. destruct n; try reflexivity. lia. Qed.

Lemma second_stage s n e' :
  0 <= n <= 2 ^ 53 -> -1074 <= e' -> (-1074 < e' -> 2 ^ 52 <= n) ->
  result_of s n e'
    (let '(mrs'', e'') := shr_fexp 53 1024 n e' loc_Exact in
     match shr_m mrs'' with
     | Z0 => S754_zero s
     | Zpos m => if Z.leb e'' (1024 - 53) then S754_finite s m e'' else S754_infinity s
     | _ => S754_nan
     end).
Proof.
  intros Hn He Hnorm. unfold shr_fexp. rewrite fexp64_eq. unfold fexp64.
  destruct (Z.eq_dec n (2 ^ 53)) as [->|Hne].
  - change (Zdigits2 (2 ^ 53)) with 54.
    replace (Z.max (54 + e' - 53) (-1074) - e') with 1 by lia.
    cbn [shr shr_record_of_loc SpecFloat.iter_pos shr_1 shr_m].
    change (2 ^ 53) with 9007199254740992. cbn [shr_1 shr_m].
    destruct (Z.leb_spec (e' + 1) (1024 - 53)); unfold result_of.
    + split; [reflexivity|]. split; [lia|]. split; [lia|].
      replace (e' + 1 - e') with 1 by lia. reflexivity.
    + split; [reflexivity|]. split; [reflexivity|].
      assert (2 ^ (1024 - e') <= 2 ^ 53) by (apply Z.pow_le_mono_r; lia).
      exact H0.
  - assert (Hd : Zdigits2 n <= 53) by (apply Zdigits2_le; lia).
    rewrite shr_nonpos by lia.
    cbn [shr_record_of_loc shr_m].
    destruct n as [|q|q]; [| |lia]; unfold result_of.
    + split; reflexivity.
    + destruct (Z.leb_spec e' (1024 - 53)).
      * split; [reflexivity|]. split; [lia|]. split; [lia|].
        rewrite Z.sub_diag. change (2 ^ 0) with 1. lia.
      * split; [reflexivity|]. split; [reflexivity|].
        assert (2 ^ 52 <= Z.pos q) by (apply Hnorm; lia).
        assert (2 ^ (1024 - e') <= 2 ^ 52) by (apply Z.pow_le_mono_r; lia).
        lia.
Qed.

Lemma rne_spec_bounds M k n d :
  0 <= k -> 0 < d -> 2 ^ (d - 1) <= M < 2 ^ d -> d - 53 <= k ->
  rne_spec M k n ->
  0 <= n <= 2 ^ 53 /\ (k = d - 53 -> 2 ^ 52 <= n).
Proof.
  intros Hk Hd [HM1 HM2] Hdk (Hn & Ha & _).
  assert (HP : 0 < 2 ^ k) by (apply Z.pow_pos_nonneg; lia).
  assert (H1 : 2 ^ d <= 2 ^ 53 * 2 ^ k).
  { rewrite <- Z.pow_add_r by lia. apply Z.pow_le_mono_r; lia. }
  assert (H2 : k = d - 53 -> 2 ^ (d - 1) = 2 ^ 52 * 2 ^ k).
  { intros ->. rewrite <- Z.pow_add_r by lia. f_equal. lia. }
  set (P := 2 ^ k) in *. clearbody P.
  change (2 ^ 53) with 9007199254740992 in *.
  change (2 ^ 52) with 4503599627370496 in *.
  split; [split; [lia|nia]|].
  intros Hkd. specialize (H2 Hkd). nia.
Qed.

Lemma binary_round_aux_char s M E :
  0 <= fexp64 (Z.pos (digits2_pos M) + E) - E ->
  exists n,
    rne_spec (Z.pos M) (fexp64 (Z.pos (digits2_pos M) + E) - E) n /\
    result_of s n (fexp64 (Z.pos (digits2_pos M) + E))
      (binary_round_aux 53 1024 s (Z.pos M) E loc_Exact).
Proof.
  intros Hk. pose proof (digits2_pos_spec M) as HM.
  set (d := Z.pos (digits2_pos M)) in *.
  assert (Hd : 0 < d) by (unfold d; lia).
  set (e' := fexp64 (d + E)) in *.
  assert (He' : -1074 <= e' /\ d + E - 53 <= e') by (unfold e', fexp64; lia).
  unfold binary_round_aux.
  unfold shr_fexp at 1. rewrite fexp64_eq. cbn [Zdigits2].
  fold d. fold e'. cbn [shr_record_of_loc].
  assert (Hn : forall n, rne_spec (Z.pos M) (e' - E) n ->
            0 <= n <= 2 ^ 53 /\ (-1074 < e' -> 2 ^ 52 <= n)).
  { intros n Hr.
    destruct (rne_spec_bounds (Z.pos M) (e' - E) n d) as [B1 B2]; try lia; auto.
    split; [exact B1|]. intros Hlt. apply B2. unfold e', fexp64 in *. lia. }
  destruct (e' - E) as [|p|p] eqn:Ek; [| |lia].
  - cbn [shr shr_m loc_of_shr_record round_nearest_even].
    exists (Z.pos M). split; [apply rne_spec_exact; lia|].
    replace E with e' by lia.
    destruct (Hn (Z.pos M)) as [B1 B2]; [apply rne_spec_exact; lia|].
    apply second_stage; lia.
  - cbn [shr].
    pose proof (shifted_iter (Z.pos M) p ltac:(lia)) as Hsh.
    pose proof (rne_spec_shifted _ _ _ Hsh) as Hr.
    set (rec := SpecFloat.iter_pos shr_1 p _) in *.
    exists (round_nearest_even (shr_m rec) (loc_of_shr_record rec)).
    split; [exact Hr|].
    replace (E + Z.pos p) with e' by lia.
    destruct (Hn _ Hr) as [B1 B2].
    apply second_stage; lia.
Qed.

End Shifting.

Section Values.
Local Open Scope R_scope.
(** *** Values as real numbers *)


Definition bpow (e : Z) : R := powerRZ 2 e.
Arguments bpow : simpl never.

Lemma bpow_pos e : 0 < bpow e.
Proof. apply powerRZ_lt. lra. Qed.

Lemma bpow_add a b : bpow (a + b) = bpow a * bpow b.
Proof. apply powerRZ_add. lra. Qed.

Lemma bpow_IZR k : (0 <= k)%Z -> IZR (2 ^ k) = bpow k.
Proof.
  intros Hk. unfold bpow. destruct k as [|p|p]; [reflexivity| |lia].
  change (2 ^ Z.pos p)%Z with (Z.pow_pos 2 p).
  apply Zpower_pos_powerRZ.
Qed.

Lemma bpow_le a b : (a <= b)%Z -> bpow a <= bpow b.
Proof.
  intros H. replace b with (a + (b - a))%Z by lia. rewrite bpow_add.
  rewrite <- (bpow_IZR (b - a)) by lia.
  assert (1 <= IZR (2 ^ (b - a))).
  { apply IZR_le. assert (0 < 2 ^ (b - a))%Z by (apply Z.pow_pos_nonneg; lia). lia. }
  pose proof (bpow_pos a). nra.
Qed.

Lemma bpow_lt a b : (a < b)%Z -> bpow a < bpow b.
Proof.
  intros H. replace b with (a + (b - a))%Z by lia. rewrite bpow_add.
  rewrite <- (bpow_IZR (b - a)) by lia.
  assert (2 <= IZR (2 ^ (b - a))).
  { apply IZR_le. replace (b - a)%Z with (Z.succ (b - a - 1)) by lia.
    rewrite Z.pow_succ_r by lia.
    assert (0 < 2 ^ (b - a - 1))%Z by (apply Z.pow_pos_nonneg; lia). lia. }
  pose proof (bpow_pos a). nra.
Qed.

Lemma bpow_lt_inv a b : bpow a < bpow b -> (a < b)%Z.
Proof.
  intros H. destruct (Z_lt_le_dec a b) as [|Hle]; [assumption|].
  apply bpow_le in Hle. lra.
Qed.

Lemma bpow_succ a : bpow (a + 1) = 2 * bpow a.
Proof. rewrite bpow_add. unfold bpow at 2. simpl. lra. Qed.

(** [n] is the integer nearest to [x / 2^(fexp g)], ties to even, for an
    [x] of magnitude [g]. *)
Definition rounds_to (x : R) (g n : Z) : Prop :=
  bpow (g - 1) <= x < bpow g /\ (0 <= n)%Z /\
  Rabs (IZR n * bpow (fexp64 g) - x) * 2 <= bpow (fexp64 g) /\
  (Rabs (IZR n * bpow (fexp64 g) - x) * 2 = bpow (fexp64 g) -> Z.even n = true).

Lemma rounds_to_of_rne M E n :
  let g := (Z.pos (digits2_pos M) + E)%Z in
  (0 <= fexp64 g - E)%Z ->
  rne_spec (Z.pos M) (fexp64 g - E) n ->
  rounds_to (IZR (Z.pos M) * bpow E) g n.
Proof.
  intros g Hk (Hn & Ha & Ht). unfold rounds_to.
  pose proof (digits2_pos_spec M) as [D1 D2].
  pose proof (bpow_pos E) as HE.
  split; [split|split; [exact Hn|]].
  - replace (g - 1)%Z with ((Z.pos (digits2_pos M) - 1) + E)%Z by (unfold g; lia).
    rewrite bpow_add, <- (bpow_IZR (Z.pos (digits2_pos M) - 1)) by lia.
    apply Rmult_le_compat_r; [lra|]. apply IZR_le. exact D1.
  - unfold g. rewrite bpow_add, <- (bpow_IZR (Z.pos (digits2_pos M))) by lia.
    apply Rmult_lt_compat_r; [lra|]. apply IZR_lt. exact D2.
  - set (k := (fexp64 g - E)%Z) in *.
    assert (Ek : bpow (fexp64 g) = IZR (2 ^ k) * bpow E).
    { rewrite bpow_IZR by lia. rewrite <- bpow_add. f_equal. unfold k. lia. }
    assert (Eq : Rabs (IZR n * bpow (fexp64 g) - IZR (Z.pos M) * bpow E) * 2
                 = IZR (2 * Z.abs (n * 2 ^ k - Z.pos M)) * bpow E).
    { rewrite Ek. rewrite mult_IZR, abs_IZR, minus_IZR, mult_IZR.
      replace (IZR n * (IZR (2 ^ k) * bpow E) - IZR (Z.pos M) * bpow E)
        with ((IZR n * IZR (2 ^ k) - IZR (Z.pos M)) * bpow E) by ring.
      rewrite Rabs_mult, (Rabs_pos_eq (bpow E)) by lra. ring. }
    rewrite Eq, Ek. split.
    + apply Rmult_le_compat_r; [lra|]. apply IZR_le. exact Ha.
    + intros H. apply Ht. apply Rmult_eq_reg_r in H; [|lra].
      apply eq_IZR. exact H.
Qed.

Lemma fexp64_mono g1 g2 : (g1 <= g2)%Z -> (fexp64 g1 <= fexp64 g2)%Z.
Proof. unfold fexp64. lia. Qed.

Lemma Rabs_le_both a b : Rabs a <= b -> - b <= a <= b.
Proof. unfold Rabs. destruct (Rcase_abs a); lra. Qed.

Lemma Rabs_eq_of a b : 0 <= b -> (a = b \/ a = - b) -> Rabs a = b.
Proof. unfold Rabs. destruct (Rcase_abs a); lra. Qed.

Lemma rounds_to_mono x1 g1 n1 x2 g2 n2 :
  rounds_to x1 g1 n1 -> rounds_to x2 g2 n2 -> x1 <= x2 ->
  IZR n1 * bpow (fexp64 g1) <= IZR n2 * bpow (fexp64 g2).
Proof.
  intros ([L1 U1] & N1 & A1 & T1) ([L2 U2] & N2 & A2 & T2) Hx.
  assert (Hg : (g1 <= g2)%Z).
  { assert (bpow (g1 - 1) < bpow g2) by lra. apply bpow_lt_inv in H. lia. }
  pose proof (fexp64_mono _ _ Hg) as He.
  pose proof (bpow_pos (fexp64 g1)) as B1.
  pose proof (bpow_pos (fexp64 g2)) as B2.
  assert (A1' : - bpow (fexp64 g1) <= (IZR n1 * bpow (fexp64 g1) - x1) * 2
                <= bpow (fexp64 g1)).
  { pose proof (Rabs_le_both (IZR n1 * bpow (fexp64 g1) - x1) (bpow (fexp64 g1) / 2)
                  ltac:(lra)). lra. }
  assert (A2' : - bpow (fexp64 g2) <= (IZR n2 * bpow (fexp64 g2) - x2) * 2
                <= bpow (fexp64 g2)).
  { pose proof (Rabs_le_both (IZR n2 * bpow (fexp64 g2) - x2) (bpow (fexp64 g2) / 2)
                  ltac:(lra)). lra. }
  destruct (Z.eq_dec (fexp64 g1) (fexp64 g2)) as [Ee|Ene].
  - (* the same exponent *)
    rewrite <- Ee in *. set (B := bpow (fexp64 g1)) in *.
    destruct (Z_le_gt_dec n1 n2) as [Hn|Hn].
    + apply Rmult_le_compat_r; [lra|]. apply IZR_le. exact Hn.
    + exfalso.
      assert (Hn' : IZR n2 + 1 <= IZR n1).
      { rewrite <- plus_IZR. apply IZR_le. lia. }
      assert (HU : IZR n2 * B + B <= IZR n1 * B) by nra.
      assert (Ev1 : Z.even n1 = true).
      { apply T1. rewrite (Rabs_eq_of _ (B / 2)); lra. }
      assert (Ev2 : Z.even n2 = true).
      { apply T2. rewrite (Rabs_eq_of _ (B / 2)); lra. }
      assert (En : n1 = (n2 + 1)%Z).
      { apply eq_IZR. rewrite plus_IZR. nra. }
      subst n1. rewrite Z.even_add, Ev2 in Ev1. discriminate.
  - (* a larger exponent: the values are a power of two apart *)
    assert (Hlt : (fexp64 g1 < fexp64 g2)%Z) by lia.
    assert (Hg' : (g1 <= g2 - 1)%Z) by (unfold fexp64 in *; lia).
    assert (E2 : fexp64 g2 = (g2 - 53)%Z) by (unfold fexp64 in *; lia).
    apply Rle_trans with (bpow g1); [|apply Rle_trans with (bpow (g2 - 1))].
    + destruct (Z_le_gt_dec (fexp64 g1) g1) as [Hc|Hc].
      * assert (EN : bpow g1 = IZR (2 ^ (g1 - fexp64 g1)) * bpow (fexp64 g1)).
        { rewrite bpow_IZR by lia. rewrite <- bpow_add. f_equal. lia. }
        rewrite EN. apply Rmult_le_compat_r; [lra|]. apply IZR_le.
        assert (IZR n1 < IZR (2 ^ (g1 - fexp64 g1) + 1)).
        { rewrite plus_IZR. rewrite EN in U1. nra. }
        apply lt_IZR in H. lia.
      * assert (bpow g1 <= bpow (fexp64 g1 - 1)) by (apply bpow_le; lia).
        assert (E1 : bpow (fexp64 g1) = 2 * bpow (fexp64 g1 - 1)).
        { rewrite <- bpow_succ. f_equal. lia. }
        assert (IZR n1 < IZR 1) by nra.
        apply lt_IZR in H0. replace n1 with 0%Z by lia.
        pose proof (bpow_pos g1). lra.
    + apply bpow_le. lia.
    + assert (EN : bpow (g2 - 1) = IZR (2 ^ 52) * bpow (fexp64 g2)).
      { rewrite bpow_IZR by lia. rewrite <- bpow_add. f_equal. lia. }
      rewrite EN. apply Rmult_le_compat_r; [lra|]. apply IZR_le.
      assert (IZR (2 ^ 52 - 1) < IZR n2).
      { rewrite minus_IZR. rewrite EN in L2. nra. }
      apply lt_IZR in H. lia.
Qed.


(** *** binary64 on the real line *)

(** The value of a float, the infinities placed just beyond the finite
    numbers (at [2^1024] and its opposite) so that the order of binary64
    is the order of the values. *)
Definition rk (f : spec_float) : R :=
  match f with
  | S754_zero _ => 0
  | S754_infinity s => if s then - bpow 1024 else bpow 1024
  | S754_nan => 0
  | S754_finite s m e =>
      if s then - (IZR (Z.pos m) * bpow e) else IZR (Z.pos m) * bpow e
  end.

Definition valid64 (f : spec_float) : Prop := valid_binary f = true.

Lemma valid_finite_facts s m e :
  valid64 (S754_finite s m e) ->
  (-1074 <= e <= 971)%Z /\ (Z.pos m < 2 ^ 53)%Z /\
  (-1074 < e -> 2 ^ 52 <= Z.pos m)%Z.
Proof.
  unfold valid64, SpecFloat.valid_binary, bounded, canonical_mantissa.
  change (fexp prec emax) with fexp64. unfold fexp64.
  change (emax - prec)%Z with 971%Z.
  intros H. apply andb_prop in H as [H1 H2].
  apply Z.eqb_eq in H1. apply Z.leb_le in H2.
  pose proof (digits2_pos_spec m) as [D1 D2].
  set (d := Z.pos (digits2_pos m)) in *.
  assert (0 < d)%Z by (unfold d; lia).
  split; [lia|]. split.
  - assert (2 ^ d <= 2 ^ 53)%Z by (apply Z.pow_le_mono_r; lia). lia.
  - intros He. assert (d = 53)%Z by lia.
    replace (d - 1)%Z with 52%Z in D1 by lia. exact D1.
Qed.

Lemma finite_value_bounds s m e :
  valid64 (S754_finite s m e) ->
  0 < IZR (Z.pos m) * bpow e < bpow 1024 /\
  IZR (Z.pos m) * bpow e < bpow (e + 53) /\
  ((-1074 < e)%Z -> bpow (e + 52) <= IZR (Z.pos m) * bpow e).
Proof.
  intros V. apply valid_finite_facts in V as (He & Hm & Hn).
  pose proof (bpow_pos e) as B.
  assert (P : 0 < IZR (Z.pos m)) by (apply IZR_lt; lia).
  assert (U : IZR (Z.pos m) * bpow e < bpow (e + 53)).
  { rewrite Z.add_comm, bpow_add, <- (bpow_IZR 53) by lia.
    apply Rmult_lt_compat_r; [lra|]. apply IZR_lt. exact Hm. }
  split; [split; [nra|]|split; [exact U|]].
  - apply Rlt_le_trans with (1 := U). apply bpow_le. lia.
  - intros H. rewrite Z.add_comm, bpow_add, <- (bpow_IZR 52) by lia.
    apply Rmult_le_compat_r; [lra|]. apply IZR_le. apply Hn, H.
Qed.

Lemma rk_bounds f : valid64 f -> - bpow 1024 <= rk f <= bpow 1024.
Proof.
  intros V. pose proof (bpow_pos 1024).
  destruct f as [s|s| |s m e]; cbn [rk]; try destruct s; try lra;
    apply finite_value_bounds in V; lra.
Qed.

(** On valid numbers the comparison is that of the values. *)
Lemma SFcompare_rk a b :
  valid64 a -> valid64 b -> a <> S754_nan -> b <> S754_nan ->
  match SFcompare a b with
  | Some Lt => rk a < rk b
  | Some Eq => rk a = rk b
  | Some Gt => rk b < rk a
  | None => False
  end.
Proof.
  intros Va Vb Na Nb. pose proof (bpow_pos 1024) as B.
  destruct a as [sa|sa| |sa ma ea], b as [sb|sb| |sb mb eb];
    try congruence; cbn [SFcompare rk].
  - reflexivity.
  - destruct sb; lra.
  - apply finite_value_bounds in Vb. destruct sb; lra.
  - destruct sa; lra.
  - destruct sa, sb; lra.
  - apply finite_value_bounds in Vb. destruct sa, sb; lra.
  - apply finite_value_bounds in Va. destruct sa; lra.
  - apply finite_value_bounds in Va. destruct sa, sb; lra.
  - pose proof (finite_value_bounds _ _ _ Va) as (Pa & Ua & La).
    pose proof (finite_value_bounds _ _ _ Vb) as (Pb & Ub & Lb).
    pose proof (valid_finite_facts _ _ _ Va) as (Ea & _).
    pose proof (valid_finite_facts _ _ _ Vb) as (Eb & _).
    assert (C : match (ea ?= eb)%Z with
                | Lt => IZR (Z.pos ma) * bpow ea < IZR (Z.pos mb) * bpow eb
                | Eq => ea = eb
                | Gt => IZR (Z.pos mb) * bpow eb < IZR (Z.pos ma) * bpow ea
                end).
    { destruct (Z.compare_spec ea eb) as [E|E|E]; [exact E| |].
      - apply Rlt_le_trans with (1 := Ua).
        apply Rle_trans with (bpow (eb + 52)); [apply bpow_le; lia|].
        apply Lb. lia.
      - apply Rlt_le_trans with (1 := Ub).
        apply Rle_trans with (bpow (ea + 52)); [apply bpow_le; lia|].
        apply La. lia. }
    assert (D : ea = eb ->
                match (ma ?= mb)%positive with
                | Lt => IZR (Z.pos ma) * bpow ea < IZR (Z.pos mb) * bpow eb
                | Eq => IZR (Z.pos ma) * bpow ea = IZR (Z.pos mb) * bpow eb
                | Gt => IZR (Z.pos mb) * bpow eb < IZR (Z.pos ma) * bpow ea
                end).
    { intros <-. pose proof (bpow_pos ea).
      destruct (Pos.compare_spec ma mb) as [E|E|E].
      - subst. reflexivity.
      - apply Rmult_lt_compat_r; [lra|]. apply IZR_lt. lia.
      - apply Rmult_lt_compat_r; [lra|]. apply IZR_lt. lia. }
    change (Pos.compare_cont Eq ma mb) with (ma ?= mb)%positive.
    destruct sa, sb; try lra;
      destruct (ea ?= eb)%Z; try lra; specialize (D C);
      destruct (ma ?= mb)%positive; cbn [CompOpp]; lra.
Qed.

Lemma result_of_rk s n e' F :
  (0 <= n)%Z -> result_of s n e' F -> valid64 F ->
  F <> S754_nan /\
  rk F = if s then - Rmin (IZR n * bpow e') (bpow 1024)
         else Rmin (IZR n * bpow e') (bpow 1024).
Proof.
  intros Hn HR V. pose proof (bpow_pos 1024) as B. pose proof (bpow_pos e') as B'.
  destruct F as [s'|s'| |s' m e]; cbn [result_of rk] in *.
  - destruct HR as [-> ->]. split; [discriminate|].
    rewrite Rmult_0_l, Rmin_left by lra. destruct s; lra.
  - destruct HR as (-> & Hp & Hle). split; [discriminate|].
    assert (bpow 1024 <= IZR n * bpow e').
    { destruct (Z_le_gt_dec e' 1024) as [H|H].
      - replace 1024%Z with ((1024 - e') + e')%Z at 1 by lia.
        rewrite bpow_add, <- (bpow_IZR (1024 - e')) by lia.
        apply Rmult_le_compat_r; [lra|]. apply IZR_le. exact Hle.
      - assert (bpow 1024 <= bpow e') by (apply bpow_le; lia).
        assert (1 <= IZR n) by (apply IZR_le; lia). nra. }
    rewrite Rmin_right by lra. reflexivity.
  - contradiction.
  - destruct HR as (-> & He & Hee & Hm). split; [discriminate|].
    assert (Ev : IZR n * bpow e' = IZR (Z.pos m) * bpow e).
    { rewrite <- Hm, mult_IZR, bpow_IZR by lia.
      rewrite Rmult_assoc, <- bpow_add. do 2 f_equal. lia. }
    apply finite_value_bounds in V as ((_ & U) & _).
    rewrite Ev, Rmin_left by lra. reflexivity.
Qed.

(** [F] is the positive [x] rounded to binary64, with the sign [s]. *)
Definition rounded (x : R) (s : bool) (F : spec_float) : Prop :=
  exists g n, rounds_to x g n /\ result_of s n (fexp64 g) F.

Lemma rounded_mono s x1 F1 x2 F2 :
  rounded x1 s F1 -> rounded x2 s F2 -> valid64 F1 -> valid64 F2 ->
  x1 <= x2 ->
  if s then rk F2 <= rk F1 else rk F1 <= rk F2.
Proof.
  intros (g1 & n1 & R1 & O1) (g2 & n2 & R2 & O2) V1 V2 Hx.
  pose proof (rounds_to_mono _ _ _ _ _ _ R1 R2 Hx) as Hv.
  destruct (result_of_rk _ _ _ _ (proj1 (proj2 R1)) O1 V1) as [_ E1].
  destruct (result_of_rk _ _ _ _ (proj1 (proj2 R2)) O2 V2) as [_ E2].
  rewrite E1, E2. unfold Rmin.
  destruct s; repeat destruct Rle_dec; lra.
Qed.

Lemma rounded_sign x s F :
  rounded x s F -> valid64 F ->
  F <> S754_nan /\ if s then rk F <= 0 else 0 <= rk F.
Proof.
  intros (g & n & R & O) V.
  destruct (result_of_rk _ _ _ _ (proj1 (proj2 R)) O V) as [N E].
  split; [exact N|]. rewrite E.
  assert (0 <= IZR n * bpow (fexp64 g)).
  { apply Rmult_le_pos; [apply IZR_le; apply R|]. pose proof (bpow_pos (fexp64 g)). lra. }
  pose proof (bpow_pos 1024). unfold Rmin. destruct s; destruct Rle_dec; lra.
Qed.

(** [F] is the real [v] rounded to binary64. *)
Definition Rounds (v : R) (F : spec_float) : Prop :=
  (v = 0 /\ F <> S754_nan /\ rk F = 0) \/
  (0 < v /\ rounded v false F) \/
  (v < 0 /\ rounded (- v) true F).

Lemma Rounds_not_nan v F : Rounds v F -> valid64 F -> F <> S754_nan.
Proof.
  intros [(_ & N & _)|[(_ & H)|(_ & H)]] V; [exact N| |];
    apply (rounded_sign _ _ _ H V).
Qed.

Lemma Rounds_mono v1 F1 v2 F2 :
  Rounds v1 F1 -> Rounds v2 F2 -> valid64 F1 -> valid64 F2 ->
  v1 <= v2 -> rk F1 <= rk F2.
Proof.
  intros H1 H2 V1 V2 Hv.
  destruct H1 as [(Z1 & _ & E1)|[(P1 & R1)|(N1 & R1)]];
  destruct H2 as [(Z2 & _ & E2)|[(P2 & R2)|(N2 & R2)]]; try lra.
  - pose proof (rounded_sign _ _ _ R2 V2) as [_ S2]. cbn in S2. lra.
  - apply (rounded_mono false _ _ _ _ R1 R2 V1 V2 Hv).
  - pose proof (rounded_sign _ _ _ R1 V1) as [_ S1]. cbn in S1. lra.
  - pose proof (rounded_sign _ _ _ R1 V1) as [_ S1].
    pose proof (rounded_sign _ _ _ R2 V2) as [_ S2]. cbn in S1, S2. lra.
  - apply (rounded_mono true _ _ _ _ R2 R1 V2 V1). lra.
Qed.

Lemma binary_round_aux_rounded s M E :
  (0 <= fexp64 (Z.pos (digits2_pos M) + E) - E)%Z ->
  rounded (IZR (Z.pos M) * bpow E) s
    (binary_round_aux 53 1024 s (Z.pos M) E loc_Exact).
Proof.
  intros Hk. destruct (binary_round_aux_char s M E Hk) as (n & Hr & Ho).
  exists (Z.pos (digits2_pos M) + E)%Z, n. split; [|exact Ho].
  apply rounds_to_of_rne; assumption.
Qed.

Lemma iter_xO_value m d : Z.pos (Pos.iter xO m d) = (Z.pos m * 2 ^ Z.pos d)%Z.
Proof.
  apply (Pos.iter_ind _ xO m (fun d r => Z.pos r = (Z.pos m * 2 ^ Z.pos d)%Z)).
  - change (2 ^ 1)%Z with 2%Z. lia.
  - intros p a IH. rewrite Pos2Z.inj_succ, Z.pow_succ_r by lia.
    rewrite Pos2Z.inj_xO, IH. ring.
Qed.

Lemma iter_xO_digits m d :
  Z.pos (digits2_pos (Pos.iter xO m d)) = (Z.pos (digits2_pos m) + Z.pos d)%Z.
Proof.
  apply (Pos.iter_ind _ xO m
           (fun d r => Z.pos (digits2_pos r) = (Z.pos (digits2_pos m) + Z.pos d)%Z)).
  - cbn [digits2_pos]. lia.
  - intros p a IH. cbn [digits2_pos]. lia.
Qed.

Lemma shl_align_value m e e' :
  (e' <= e)%Z -> Z.pos (fst (shl_align m e e')) = (Z.pos m * 2 ^ (e - e'))%Z.
Proof.
  intros H. unfold shl_align. destruct (e' - e)%Z as [|p|p] eqn:E; cbn [fst].
  - replace (e - e')%Z with 0%Z by lia. change (2 ^ 0)%Z with 1%Z. lia.
  - lia.
  - rewrite iter_xO_value. do 2 f_equal. lia.
Qed.

Lemma binary_round_rounded s M E :
  rounded (IZR (Z.pos M) * bpow E) s (binary_round 53 1024 s M E).
Proof.
  unfold binary_round. change (fexp 53 1024) with fexp64.
  set (t := fexp64 (Z.pos (digits2_pos M) + E)).
  unfold shl_align. destruct (t - E)%Z as [|p|p] eqn:Et.
  - apply binary_round_aux_rounded. fold t. lia.
  - apply binary_round_aux_rounded. fold t. lia.
  - replace (IZR (Z.pos M) * bpow E)
      with (IZR (Z.pos (Pos.iter xO M p)) * bpow t).
    + apply binary_round_aux_rounded. rewrite iter_xO_digits.
      replace (Z.pos (digits2_pos M) + Z.pos p + t)%Z
        with (Z.pos (digits2_pos M) + E)%Z by lia.
      fold t. lia.
    + rewrite iter_xO_value, mult_IZR, bpow_IZR by lia.
      rewrite Rmult_assoc, <- bpow_add. do 2 f_equal. lia.
Qed.

Lemma binary_normalize_Rounds z E :
  Rounds (IZR z * bpow E) (binary_normalize 53 1024 z E false).
Proof.
  pose proof (bpow_pos E) as B. destruct z as [|M|M]; cbn [binary_normalize].
  - left. cbn [rk]. split; [lra|]. split; [discriminate|reflexivity].
  - right; left. split.
    + apply Rmult_lt_0_compat; [apply IZR_lt; lia|lra].
    + apply binary_round_rounded.
  - right; right.
    assert (E' : - (IZR (Z.neg M) * bpow E) = IZR (Z.pos M) * bpow E).
    { change (Z.neg M) with (- Z.pos M)%Z. rewrite opp_IZR. ring. }
    split.
    + assert (0 < IZR (Z.pos M) * bpow E)
        by (apply Rmult_lt_0_compat; [apply IZR_lt; lia|lra]). lra.
    + rewrite E'. apply binary_round_rounded.
Qed.

(** *** Subtraction and multiplication round their exact results *)

Definition is_fin (f : spec_float) : bool :=
  match f with
  | S754_zero _ | S754_finite _ _ _ => true
  | _ => false
  end.

Lemma valid_canonical s m e :
  valid64 (S754_finite s m e) -> fexp64 (Z.pos (digits2_pos m) + e) = e.
Proof.
  unfold valid64, SpecFloat.valid_binary, bounded, canonical_mantissa.
  change (fexp prec emax) with fexp64.
  intros H. apply andb_prop in H as [H1 _]. apply Z.eqb_eq in H1. exact H1.
Qed.

Lemma rounded_canonical s m e :
  valid64 (S754_finite s m e) ->
  rounded (IZR (Z.pos m) * bpow e) s (S754_finite s m e).
Proof.
  intros V. pose proof (valid_canonical _ _ _ V) as C.
  pose proof (valid_finite_facts _ _ _ V) as (He & _).
  exists (Z.pos (digits2_pos m) + e)%Z, (Z.pos m). split.
  - apply rounds_to_of_rne; rewrite C, Z.sub_diag; [lia|].
    apply rne_spec_exact. lia.
  - cbn [result_of]. rewrite C, Z.sub_diag. change (2 ^ 0)%Z with 1%Z.
    repeat split; lia.
Qed.

Lemma Rounds_fin f : is_fin f = true -> valid64 f -> Rounds (rk f) f.
Proof.
  destruct f as [s|s| |s m e]; try discriminate; intros _ V.
  - left. cbn [rk]. repeat split. discriminate.
  - pose proof (finite_value_bounds _ _ _ V) as ((P & _) & _).
    pose proof (rounded_canonical _ _ _ V) as R.
    destruct s; cbn [rk].
    + right; right. split; [lra|]. rewrite Ropp_involutive. exact R.
    + right; left. split; [lra|exact R].
Qed.

Lemma aligned_value s m e ez :
  (ez <= e)%Z ->
  IZR (cond_Zopp s (Z.pos (fst (shl_align m e ez)))) * bpow ez
  = rk (S754_finite s m e).
Proof.
  intros H. rewrite shl_align_value by exact H.
  assert (E : IZR (Z.pos m * 2 ^ (e - ez)) * bpow ez = IZR (Z.pos m) * bpow e).
  { rewrite mult_IZR, bpow_IZR by lia. rewrite Rmult_assoc, <- bpow_add.
    do 2 f_equal. lia. }
  destruct s; cbn [cond_Zopp rk].
  - rewrite opp_IZR. lra.
  - exact E.
Qed.

Lemma SFsub_Rounds x y :
  is_fin x = true -> is_fin y = true -> valid64 x -> valid64 y ->
  Rounds (rk x - rk y) (SF64sub x y).
Proof.
  destruct x as [sx|sx| |sx mx ex], y as [sy|sy| |sy my ey];
    try discriminate; intros _ _ Vx Vy; unfold SF64sub; cbn [SFsub].
  - left. cbn [rk]. split; [lra|].
    destruct sx, sy; split; try discriminate; reflexivity.
  - replace (rk (S754_zero sx) - rk (S754_finite sy my ey))
      with (rk (S754_finite (negb sy) my ey))
      by (destruct sy; cbn [rk negb]; lra).
    apply Rounds_fin; [reflexivity|exact Vy].
  - replace (rk (S754_finite sx mx ex) - rk (S754_zero sy))
      with (rk (S754_finite sx mx ex)) by (cbn [rk]; lra).
    apply Rounds_fin; [reflexivity|exact Vx].
  - rewrite <- (aligned_value sx mx ex (Z.min ex ey)) by lia.
    rewrite <- (aligned_value sy my ey (Z.min ex ey)) by lia.
    rewrite <- Rmult_minus_distr_r, <- minus_IZR.
    apply binary_normalize_Rounds.
Qed.

Lemma product_digits mx my :
  (Z.pos (digits2_pos mx) + Z.pos (digits2_pos my) - 1
   <= Z.pos (digits2_pos (mx * my)))%Z.
Proof.
  pose proof (digits2_pos_spec mx) as [X _].
  pose proof (digits2_pos_spec my) as [Y _].
  pose proof (digits2_pos_spec (mx * my)) as [_ U].
  set (dx := Z.pos (digits2_pos mx)) in *. set (dy := Z.pos (digits2_pos my)) in *.
  assert (0 < dx)%Z by (unfold dx; lia). assert (0 < dy)%Z by (unfold dy; lia).
  assert (H1 : (2 ^ (dx - 1 + (dy - 1)) <= Z.pos mx * Z.pos my)%Z).
  { rewrite Z.pow_add_r by lia.
    apply Z.mul_le_mono_nonneg; try lia; apply Z.pow_nonneg; lia. }
  rewrite Pos2Z.inj_mul in U.
  assert (H2 : (2 ^ (dx - 1 + (dy - 1)) < 2 ^ Z.pos (digits2_pos (mx * my)))%Z) by lia.
  apply Z.pow_lt_mono_r_iff in H2; lia.
Qed.

Lemma SFmul_Rounds x y :
  is_fin x = true -> is_fin y = true -> valid64 x -> valid64 y ->
  Rounds (rk x * rk y) (SF64mul x y).
Proof.
  destruct x as [sx|sx| |sx mx ex], y as [sy|sy| |sy my ey];
    try discriminate; intros _ _ Vx Vy; unfold SF64mul; cbn [SFmul];
    try (left; cbn [rk]; split; [lra|split; [discriminate|reflexivity]]).
  pose proof (finite_value_bounds _ _ _ Vx) as ((Px & _) & _).
  pose proof (finite_value_bounds _ _ _ Vy) as ((Py & _) & _).
  assert (Ev : IZR (Z.pos (mx * my)) * bpow (ex + ey)
               = (IZR (Z.pos mx) * bpow ex) * (IZR (Z.pos my) * bpow ey)).
  { rewrite Pos2Z.inj_mul, mult_IZR, bpow_add. ring. }
  assert (Hk : (0 <= fexp64 (Z.pos (digits2_pos (mx * my)) + (ex + ey)) - (ex + ey))%Z).
  { pose proof (product_digits mx my) as Hd.
    pose proof (valid_canonical _ _ _ Vx) as Cx.
    pose proof (valid_canonical _ _ _ Vy) as Cy.
    unfold fexp64 in *. lia. }
  pose proof (binary_round_aux_rounded (xorb sx sy) _ _ Hk) as R.
  rewrite Ev in R.
  assert (0 < IZR (Z.pos mx) * bpow ex * (IZR (Z.pos my) * bpow ey))
    by (apply Rmult_lt_0_compat; assumption).
  destruct sx, sy; cbn [xorb rk] in *.
  - right; left. split; [lra|].
    replace (- (IZR (Z.pos mx) * bpow ex) * - (IZR (Z.pos my) * bpow ey))
      with (IZR (Z.pos mx) * bpow ex * (IZR (Z.pos my) * bpow ey)) by ring.
    exact R.
  - right; right. split; [lra|].
    replace (- (- (IZR (Z.pos mx) * bpow ex) * (IZR (Z.pos my) * bpow ey)))
      with (IZR (Z.pos mx) * bpow ex * (IZR (Z.pos my) * bpow ey)) by ring.
    exact R.
  - right; right. split; [lra|].
    replace (- (IZR (Z.pos mx) * bpow ex * - (IZR (Z.pos my) * bpow ey)))
      with (IZR (Z.pos mx) * bpow ex * (IZR (Z.pos my) * bpow ey)) by ring.
    exact R.
  - right; left. split; [lra|exact R].
Qed.

(** *** Subtraction and multiplication keep the order

    [sle a b]: [a] is at most [b], or one of them is NaN. A NaN operand
    gives a NaN result, so the relation passes through the operations
    without a case for NaN at each step. *)

Definition sle (a b : spec_float) : Prop :=
  a = S754_nan \/ b = S754_nan \/ rk a <= rk b.

Lemma class f :
  f = S754_nan \/ f = S754_infinity true \/ f = S754_infinity false \/
  is_fin f = true.
Proof. destruct f as [s|[|]| |s m e]; cbn; auto. Qed.

Lemma fin_strict f :
  is_fin f = true -> valid64 f -> f <> S754_nan /\ - bpow 1024 < rk f < bpow 1024.
Proof.
  pose proof (bpow_pos 1024).
  destruct f as [s|s| |s m e]; try discriminate; intros _ V;
    (split; [discriminate|]); cbn [rk]; [lra|].
  apply finite_value_bounds in V. destruct s; lra.
Qed.

Lemma sle_refl a : sle a a.
Proof. right; right. lra. Qed.

Lemma sle_ninf a b : a = S754_nan \/ a = S754_infinity true -> valid64 b -> sle a b.
Proof.
  intros [->| ->] V; [left; reflexivity|]. right; right.
  cbn [rk]. apply rk_bounds, V.
Qed.

Lemma sle_pinf a b : b = S754_nan \/ b = S754_infinity false -> valid64 a -> sle a b.
Proof.
  intros [->| ->] V; [right; left; reflexivity|]. right; right.
  cbn [rk]. apply rk_bounds, V.
Qed.

Lemma SFsub_nan_l b : SF64sub S754_nan b = S754_nan.
Proof. destruct b; reflexivity. Qed.
Lemma SFsub_nan_r a : SF64sub a S754_nan = S754_nan.
Proof. destruct a; reflexivity. Qed.
Lemma SFsub_ninf_l b :
  SF64sub (S754_infinity true) b = S754_nan \/
  SF64sub (S754_infinity true) b = S754_infinity true.
Proof. destruct b as [s|[|]| |s m e]; cbn; auto. Qed.
Lemma SFsub_pinf_l b :
  SF64sub (S754_infinity false) b = S754_nan \/
  SF64sub (S754_infinity false) b = S754_infinity false.
Proof. destruct b as [s|[|]| |s m e]; cbn; auto. Qed.
Lemma SFsub_pinf_r a :
  SF64sub a (S754_infinity false) = S754_nan \/
  SF64sub a (S754_infinity false) = S754_infinity true.
Proof. destruct a as [s|[|]| |s m e]; cbn; auto. Qed.
Lemma SFsub_ninf_r a :
  SF64sub a (S754_infinity true) = S754_nan \/
  SF64sub a (S754_infinity true) = S754_infinity false.
Proof. destruct a as [s|[|]| |s m e]; cbn; auto. Qed.

(** What [sle] says of two floats, one of them finite. *)
Lemma sle_fin_l a b :
  sle a b -> is_fin a = true -> valid64 a ->
  b = S754_nan \/ b = S754_infinity false \/ (is_fin b = true /\ rk a <= rk b).
Proof.
  intros H F V. destruct (fin_strict a F V) as [N B].
  destruct H as [H|[H|H]]; [contradiction|auto|].
  destruct (class b) as [->|[->|[->|Fb]]]; auto.
  cbn [rk] in H. lra.
Qed.

Lemma sle_fin_r a b :
  sle a b -> is_fin b = true -> valid64 b ->
  a = S754_nan \/ a = S754_infinity true \/ (is_fin a = true /\ rk a <= rk b).
Proof.
  intros H F V. destruct (fin_strict b F V) as [N B].
  destruct H as [H|[H|H]]; [auto|contradiction|].
  destruct (class a) as [->|[->|[->|Fa]]]; auto.
  cbn [rk] in H. lra.
Qed.

Lemma sle_pinf_l b :
  sle (S754_infinity false) b -> valid64 b ->
  b = S754_nan \/ b = S754_infinity false.
Proof.
  intros [H|[H|H]] V; [discriminate|auto|].
  pose proof (bpow_pos 1024).
  destruct (class b) as [->|[->|[->|Fb]]]; auto.
  - cbn [rk] in H. lra.
  - destruct (fin_strict b Fb V) as [_ B]. cbn [rk] in H. lra.
Qed.

Lemma sle_ninf_r a :
  sle a (S754_infinity true) -> valid64 a ->
  a = S754_nan \/ a = S754_infinity true.
Proof.
  intros [H|[H|H]] V; [auto|discriminate|].
  pose proof (bpow_pos 1024).
  destruct (class a) as [->|[->|[->|Fa]]]; auto.
  - cbn [rk] in H. lra.
  - destruct (fin_strict a Fa V) as [_ B]. cbn [rk] in H. lra.
Qed.

Lemma SFsub_mono a1 b1 a2 b2 :
  valid64 a1 -> valid64 b1 -> valid64 a2 -> valid64 b2 ->
  valid64 (SF64sub a1 b1) -> valid64 (SF64sub a2 b2) ->
  sle a1 a2 -> sle b2 b1 ->
  sle (SF64sub a1 b1) (SF64sub a2 b2).
Proof.
  intros Va1 Vb1 Va2 Vb2 V1 V2 Ha Hb.
  destruct (class a1) as [->|[->|[->|Fa1]]].
  - rewrite SFsub_nan_l. left. reflexivity.
  - apply sle_ninf; [|exact V2]. destruct (SFsub_ninf_l b1); auto.
  - apply sle_pinf; [|exact V1].
    destruct (sle_pinf_l _ Ha Va2) as [->| ->].
    + rewrite SFsub_nan_l. auto.
    + destruct (SFsub_pinf_l b2); auto.
  - destruct (sle_fin_l _ _ Ha Fa1 Va1) as [->|[->|[Fa2 Hra]]].
    + rewrite SFsub_nan_l. right; left. reflexivity.
    + apply sle_pinf; [|exact V1]. destruct (SFsub_pinf_l b2); auto.
    + destruct (class b1) as [->|[->|[->|Fb1]]].
      * rewrite SFsub_nan_r. left. reflexivity.
      * apply sle_pinf; [|exact V1].
        destruct (sle_ninf_r _ Hb Vb2) as [->| ->].
        -- rewrite SFsub_nan_r. auto.
        -- destruct (SFsub_ninf_r a2); auto.
      * apply sle_ninf; [|exact V2]. destruct (SFsub_pinf_r a1); auto.
      * destruct (sle_fin_r _ _ Hb Fb1 Vb1) as [->|[->|[Fb2 Hrb]]].
        -- rewrite SFsub_nan_r. right; left. reflexivity.
        -- apply sle_pinf; [|exact V1]. destruct (SFsub_ninf_r a2); auto.
        -- right; right.
           apply (Rounds_mono (rk a1 - rk b1) _ (rk a2 - rk b2) _);
             try assumption; try (apply SFsub_Rounds; assumption). lra.
Qed.

Lemma SFmul_nan_l b : SF64mul S754_nan b = S754_nan.
Proof. destruct b; reflexivity. Qed.
Lemma SFmul_nan_r a : SF64mul a S754_nan = S754_nan.
Proof. destruct a; reflexivity. Qed.

Lemma SFmul_pinf_r a :
  valid64 a ->
  SF64mul a (S754_infinity false) = S754_nan \/
  (SF64mul a (S754_infinity false) = S754_infinity true /\ rk a < 0) \/
  (SF64mul a (S754_infinity false) = S754_infinity false /\ 0 < rk a).
Proof.
  intros V. pose proof (bpow_pos 1024).
  destruct a as [s|s| |s m e]; cbn [SF64mul SFmul rk]; auto.
  - destruct s; cbn [xorb]; [right; left|right; right]; split; auto; lra.
  - apply finite_value_bounds in V.
    destruct s; cbn [xorb]; [right; left|right; right]; split; auto; lra.
Qed.

Lemma SFmul_inf_l s r :
  is_fin r = true -> 0 <= rk r -> valid64 r ->
  SF64mul (S754_infinity s) r = S754_nan \/
  SF64mul (S754_infinity s) r = S754_infinity s.
Proof.
  destruct r as [sr|sr| |sr m e]; try discriminate; intros _ H V;
    cbn [SF64mul SFmul]; auto.
  apply finite_value_bounds in V. destruct sr; cbn [rk] in H; [lra|].
  right. destruct s; reflexivity.
Qed.

Lemma SFmul_mono a1 a2 r :
  valid64 a1 -> valid64 a2 -> valid64 r ->
  valid64 (SF64mul a1 r) -> valid64 (SF64mul a2 r) ->
  sle a1 a2 -> r = S754_nan \/ 0 <= rk r ->
  sle (SF64mul a1 r) (SF64mul a2 r).
Proof.
  intros Va1 Va2 Vr V1 V2 Ha Hr. pose proof (bpow_pos 1024) as B.
  destruct (class r) as [->|[->|[->|Fr]]].
  - rewrite SFmul_nan_r. left. reflexivity.
  - destruct Hr as [Hr|Hr]; [discriminate|]. cbn [rk] in Hr. lra.
  - destruct (SFmul_pinf_r a1 Va1) as [E1|[[E1 S1]|[E1 S1]]]; rewrite E1.
    + left. reflexivity.
    + apply sle_ninf; auto.
    + destruct (SFmul_pinf_r a2 Va2) as [E2|[[E2 S2]|[E2 S2]]]; rewrite E2.
      * right; left. reflexivity.
      * exfalso. destruct Ha as [->|[->|Ha]]; cbn [rk] in *; lra.
      * apply sle_refl.
  - assert (Hr' : 0 <= rk r).
    { destruct Hr as [->|Hr]; [discriminate|exact Hr]. }
    destruct (class a1) as [->|[->|[->|Fa1]]].
    + rewrite SFmul_nan_l. left. reflexivity.
    + apply sle_ninf; [|exact V2]. destruct (SFmul_inf_l true r Fr Hr' Vr); auto.
    + apply sle_pinf; [|exact V1].
      destruct (sle_pinf_l _ Ha Va2) as [->| ->].
      * rewrite SFmul_nan_l. auto.
      * destruct (SFmul_inf_l false r Fr Hr' Vr); auto.
    + destruct (sle_fin_l _ _ Ha Fa1 Va1) as [->|[->|[Fa2 Hra]]].
      * rewrite SFmul_nan_l. right; left. reflexivity.
      * apply sle_pinf; [|exact V1].
        destruct (SFmul_inf_l false r Fr Hr' Vr); auto.
      * right; right.
        apply (Rounds_mono (rk a1 * rk r) _ (rk a2 * rk r) _);
          try assumption; try (apply SFmul_Rounds; assumption). nra.
Qed.

Lemma binary_round_aux_sign s mx ex lx :
  match binary_round_aux prec emax s mx ex lx with
  | S754_zero s' | S754_infinity s' | S754_finite s' _ _ => s' = s
  | S754_nan => True
  end.
Proof.
  unfold binary_round_aux.
  destruct (shr_fexp prec emax mx ex lx) as [mrs' e'].
  destruct (shr_fexp prec emax _ e' loc_Exact) as [mrs'' e''].
  destruct (shr_m mrs''); [reflexivity| |exact I].
  destruct (Z.leb e'' (emax - prec)); reflexivity.
Qed.

(** Dividing what is not negative by a positive number gives nothing
    negative. *)
Lemma SFdiv_nonneg a sm se :
  valid64 a -> a = S754_nan \/ 0 <= rk a ->
  SF64div a (S754_finite false sm se) = S754_nan \/
  0 <= rk (SF64div a (S754_finite false sm se)).
Proof.
  intros V H. pose proof (bpow_pos 1024) as B.
  destruct a as [s|s| |s m e]; unfold SF64div; cbn [SFdiv]; auto.
  - right. cbn [rk]. lra.
  - destruct H as [H|H]; [discriminate|].
    destruct s; cbn [rk xorb] in *; [lra|right; lra].
  - destruct H as [H|H]; [discriminate|].
    apply finite_value_bounds in V.
    destruct s; cbn [rk] in H; [lra|]. cbn [xorb].
    destruct (SFdiv_core_binary prec emax (Z.pos m) e (Z.pos sm) se) as [[mz ez] lz].
    pose proof (binary_round_aux_sign false mz ez lz) as S.
    destruct (binary_round_aux prec emax false mz ez lz) as [s'|s'| |s' m' e'];
      auto; subst s'; right; cbn [rk]; try lra.
    pose proof (bpow_pos e'). assert (0 < IZR (Z.pos m')) by (apply IZR_lt; lia).
    nra.
Qed.

End Values.

Section PrimitiveOrder.
Local Open Scope R_scope.
Local Open Scope float_scope.
(** *** The same on primitive floats *)


Definition fle (x y : float) : Prop := sle (Prim2SF x) (Prim2SF y).

Lemma Prim2SF_valid64 x : valid64 (Prim2SF x).
Proof. apply Prim2SF_valid. Qed.

Lemma fle_refl x : fle x x.
Proof. apply sle_refl. Qed.

Lemma SFleb_rk a b :
  valid64 a -> valid64 b -> SFleb a b = true ->
  a <> S754_nan /\ b <> S754_nan /\ (rk a <= rk b)%R.
Proof.
  intros Va Vb H. unfold SFleb in H.
  assert (Na : a <> S754_nan) by (intros ->; discriminate).
  assert (Nb : b <> S754_nan) by (intros ->; destruct a; discriminate).
  pose proof (SFcompare_rk a b Va Vb Na Nb) as C.
  destruct (SFcompare a b) as [[]|]; try discriminate; repeat split; auto; lra.
Qed.

Lemma SFltb_false_iff a b :
  valid64 a -> valid64 b ->
  SFltb a b = false <-> a = S754_nan \/ b = S754_nan \/ (rk b <= rk a)%R.
Proof.
  intros Va Vb. unfold SFltb.
  destruct (class a) as [->|Ha]; [split; auto|].
  destruct (class b) as [->|Hb]; [split; auto; destruct a; reflexivity|].
  assert (Na : a <> S754_nan) by (intros ->; intuition discriminate).
  assert (Nb : b <> S754_nan) by (intros ->; intuition discriminate).
  pose proof (SFcompare_rk a b Va Vb Na Nb) as C.
  destruct (SFcompare a b) as [[]|]; split; auto; try (right; right; lra);
    try contradiction; intros [?|[?|?]]; try contradiction; try lra.
Qed.

Lemma SFeqb_rk a b :
  valid64 a -> valid64 b -> SFeqb a b = true ->
  a <> S754_nan /\ b <> S754_nan /\ rk a = rk b.
Proof.
  intros Va Vb H. unfold SFeqb in H.
  assert (Na : a <> S754_nan) by (intros ->; discriminate).
  assert (Nb : b <> S754_nan) by (intros ->; destruct a; discriminate).
  pose proof (SFcompare_rk a b Va Vb Na Nb) as C.
  destruct (SFcompare a b) as [[]|]; try discriminate; auto.
Qed.

Lemma leb_fle x y : (x <=? y) = true -> fle x y.
Proof.
  rewrite FloatAxioms.leb_spec. intros H.
  apply SFleb_rk in H; try apply Prim2SF_valid64.
  right; right. apply H.
Qed.

Lemma ltb_false_iff x y :
  (x <? y) = false <->
  Prim2SF x = S754_nan \/ Prim2SF y = S754_nan \/
  (rk (Prim2SF y) <= rk (Prim2SF x))%R.
Proof.
  rewrite FloatAxioms.ltb_spec. apply SFltb_false_iff; apply Prim2SF_valid64.
Qed.

Lemma fle_sub x1 y1 x2 y2 :
  fle x1 x2 -> fle y2 y1 -> fle (x1 - y1) (x2 - y2).
Proof.
  unfold fle. rewrite !FloatAxioms.sub_spec. intros Hx Hy.
  apply SFsub_mono; try apply Prim2SF_valid64; try assumption;
    rewrite <- FloatAxioms.sub_spec; apply Prim2SF_valid64.
Qed.

Lemma fle_mul x1 x2 r :
  fle x1 x2 -> (r <? 0) = false -> fle (x1 * r) (x2 * r).
Proof.
  unfold fle. rewrite !FloatAxioms.mul_spec. intros Hx Hr.
  apply SFmul_mono; try apply Prim2SF_valid64; try assumption;
    try (rewrite <- FloatAxioms.mul_spec; apply Prim2SF_valid64).
  apply ltb_false_iff in Hr. change (Prim2SF 0) with (S754_zero false) in Hr.
  destruct Hr as [H|[H|H]]; [auto|discriminate|right; exact H].
Qed.

Lemma div100_nonneg x : (x <? 0) = false -> (x / 100 <? 0) = false.
Proof.
  intros H. apply ltb_false_iff in H. apply ltb_false_iff.
  change (Prim2SF 0) with (S754_zero false) in *.
  rewrite FloatAxioms.div_spec.
  change (Prim2SF 100) with (S754_finite false 7036874417766400 (-46)).
  destruct (SFdiv_nonneg (Prim2SF x) 7036874417766400 (-46) (Prim2SF_valid64 x))
    as [E|E].
  - destruct H as [H|[H|H]]; [auto|discriminate|right; exact H].
  - left. exact E.
  - right; right. exact E.
Qed.


Lemma isPosInf_sf x : isPosInf x = true <-> Prim2SF x = S754_infinity false.
Proof.
  unfold isPosInf. rewrite FloatAxioms.eqb_spec.
  change (Prim2SF infinity) with (S754_infinity false).
  destruct (Prim2SF x) as [s|[|]| |s m e]; cbn; split; congruence.
Qed.

(** The three outcomes of [go_max]: an infinity, a NaN, or the larger
    of two numbers. *)
Lemma go_max_rk x y :
  (Prim2SF (go_max x y) = S754_infinity false /\
   (Prim2SF x = S754_infinity false \/ Prim2SF y = S754_infinity false)) \/
  (Prim2SF (go_max x y) = S754_nan /\
   (Prim2SF x = S754_nan \/ Prim2SF y = S754_nan)) \/
  (Prim2SF x <> S754_nan /\ Prim2SF y <> S754_nan /\
   Prim2SF (go_max x y) <> S754_nan /\
   rk (Prim2SF (go_max x y)) = Rmax (rk (Prim2SF x)) (rk (Prim2SF y))).
Proof.
  unfold go_max.
  destruct (isPosInf x || isPosInf y) eqn:I.
  - left. split; [reflexivity|].
    apply orb_true_iff in I. rewrite !isPosInf_sf in I. exact I.
  - destruct (is_nan x || is_nan y) eqn:N.
    + right; left. split; [reflexivity|].
      apply orb_true_iff in N. rewrite !is_nan_spec in N. exact N.
    + right; right.
      apply orb_false_iff in N as [Nx Ny].
      apply not_nan_spec in Nx, Ny.
      pose proof (Prim2SF_valid64 x) as Vx. pose proof (Prim2SF_valid64 y) as Vy.
      do 2 (split; [assumption|]).
      destruct ((x =? 0) && (x =? y)) eqn:Z.
      * apply andb_prop in Z as [_ Z]. rewrite FloatAxioms.eqb_spec in Z.
        apply SFeqb_rk in Z as (_ & _ & E); auto.
        destruct (get_sign x); (split; [assumption|]); rewrite E;
          unfold Rmax; destruct Rle_dec; lra.
      * destruct (y <? x) eqn:L.
        -- split; [assumption|]. rewrite FloatAxioms.ltb_spec in L.
           unfold SFltb in L.
           pose proof (SFcompare_rk _ _ Vy Vx Ny Nx) as C.
           destruct (SFcompare (Prim2SF y) (Prim2SF x)) as [[]|]; try discriminate.
           unfold Rmax; destruct Rle_dec; lra.
        -- split; [assumption|]. apply ltb_false_iff in L.
           destruct L as [L|[L|L]]; try contradiction.
           unfold Rmax; destruct Rle_dec; lra.
Qed.

Lemma fle_max0 x y : fle x y -> fle (go_max x 0) (go_max y 0).
Proof.
  unfold fle, sle. intros H.
  destruct (go_max_rk x 0) as [[E1 I1]|[[E1 N1]|(Nx & _ & Nr1 & R1)]];
    change (Prim2SF 0) with (S754_zero false) in *.
  - (* x is +inf *)
    destruct I1 as [I1|I1]; [|discriminate].
    destruct (go_max_rk y 0) as [[E2 I2]|[[E2 N2]|(Ny & _ & Nr2 & R2)]];
      change (Prim2SF 0) with (S754_zero false) in *.
    + rewrite E1, E2. right; right. lra.
    + auto.
    + right; right. rewrite E1, R2. rewrite I1 in H.
      destruct H as [H|[H|H]]; try discriminate; try contradiction.
      cbn [rk] in *. unfold Rmax. destruct Rle_dec; lra.
  - auto.
  - destruct (go_max_rk y 0) as [[E2 I2]|[[E2 N2]|(Ny & _ & Nr2 & R2)]];
      change (Prim2SF 0) with (S754_zero false) in *.
    + right; right. rewrite E2. cbn [rk]. apply rk_bounds, Prim2SF_valid64.
    + auto.
    + right; right. rewrite R1, R2.
      destruct H as [H|[H|H]]; try contradiction.
      cbn [rk]. unfold Rmax. repeat destruct Rle_dec; lra.
Qed.

(** A rate computed from more is not below one computed from less. *)
Lemma go_max_not_above p1 p2 m :
  fle p2 p1 -> (go_max p1 m <? go_max p2 m) = false.
Proof.
  unfold fle, sle. intros H. apply ltb_false_iff.
  pose proof (bpow_pos 1024) as B.
  destruct (go_max_rk p1 m) as [[E1 I1]|[[E1 N1]|(N1 & Nm & Nr1 & R1)]].
  - right; right. rewrite E1. cbn [rk]. apply rk_bounds, Prim2SF_valid64.
  - auto.
  - destruct (go_max_rk p2 m) as [[E2 I2]|[[E2 N2]|(N2 & _ & Nr2 & R2)]].
    + right; right. rewrite E2, R1. cbn [rk].
      destruct I2 as [I2|I2].
      * rewrite I2 in H. destruct H as [H|[H|H]]; try discriminate; try contradiction.
        cbn [rk] in H. unfold Rmax. destruct Rle_dec; lra.
      * rewrite I2. cbn [rk]. unfold Rmax. destruct Rle_dec; lra.
    + auto.
    + right; right. rewrite R1, R2.
      destruct H as [H|[H|H]]; try contradiction.
      unfold Rmax. repeat destruct Rle_dec; lra.
Qed.

(** The formula does not grow when the utilizations grow and the
    previous rate shrinks, for a portion that is not negative. *)
Lemma specRate_monotone cap u1 u2 u1' u2' prev prev' ratio m :
  fle u1 u1' -> fle u2 u2' -> fle prev' prev -> (ratio <? 0) = false ->
  (specRate cap u1 u2 prev ratio m <? specRate cap u1' u2' prev' ratio m) = false.
Proof.
  intros H1 H2 Hp Hr. unfold specRate. apply go_max_not_above.
  apply fle_mul; [|apply div100_nonneg, Hr].
  apply fle_sub.
  - apply fle_sub; [apply fle_refl|].
    apply fle_max0, fle_sub; assumption.
  - apply fle_max0, fle_sub; [assumption|apply fle_refl].
Qed.
(** *** Where the rate is a number *)


Lemma is_finite_sf x : is_finite x = true -> is_fin (Prim2SF x) = true.
Proof.
  unfold is_finite, is_infinity. intros H.
  apply negb_true_iff, orb_false_iff in H as [N I].
  apply not_nan_spec in N.
  rewrite FloatAxioms.eqb_spec, FloatAxioms.abs_spec in I.
  change (Prim2SF infinity) with (S754_infinity false) in I.
  destruct (Prim2SF x) as [s|s| |s m e]; try reflexivity; try contradiction.
  discriminate.
Qed.

Lemma SFsub_fin_not_nan a b :
  is_fin a = true -> is_fin b = true -> valid64 a -> valid64 b ->
  valid64 (SF64sub a b) -> SF64sub a b <> S754_nan.
Proof.
  intros Fa Fb Va Vb V.
  apply (Rounds_not_nan (rk a - rk b)); [apply SFsub_Rounds|]; assumption.
Qed.

(** Subtracting what is not negative from a finite number gives a number
    that is not above it. *)
Lemma SFsub_fin_nonneg a b :
  is_fin a = true -> valid64 a -> valid64 b -> valid64 (SF64sub a b) ->
  b <> S754_nan -> 0 <= rk b ->
  SF64sub a b <> S754_nan /\ rk (SF64sub a b) <= rk a.
Proof.
  intros Fa Va Vb V Nb Hb. pose proof (bpow_pos 1024) as B.
  destruct (class b) as [->|[->|[->|Fb]]]; [contradiction| | |].
  - cbn [rk] in Hb. lra.
  - destruct (fin_strict a Fa Va) as [_ Ba].
    destruct a as [s|s| |s m e]; try discriminate; cbn [SF64sub SFsub negb];
      (split; [discriminate|]); cbn [rk] in *; lra.
  - split; [apply SFsub_fin_not_nan; assumption|].
    apply (Rounds_mono (rk a - rk b) _ (rk a) _); try assumption.
    + apply SFsub_Rounds; assumption.
    + apply Rounds_fin; assumption.
    + lra.
Qed.

Lemma SFsub_below_nonneg a b :
  valid64 a -> valid64 b -> valid64 (SF64sub a b) ->
  a <> S754_nan -> b <> S754_nan -> rk a < bpow 1024 -> 0 <= rk b ->
  SF64sub a b <> S754_nan.
Proof.
  intros Va Vb V Na Nb Ha Hb. pose proof (bpow_pos 1024) as B.
  destruct (class a) as [->|[->|[->|Fa]]]; [contradiction| | |].
  - destruct b as [s|[|]| |s m e]; try contradiction; cbn [rk] in Hb;
      try (exfalso; lra); discriminate.
  - cbn [rk] in Ha. lra.
  - apply SFsub_fin_nonneg; assumption.
Qed.

Lemma SFmul_pos_not_nan a r :
  valid64 a -> valid64 r -> valid64 (SF64mul a r) ->
  a <> S754_nan -> is_fin r = true -> 0 < rk r ->
  SF64mul a r <> S754_nan.
Proof.
  intros Va Vr V Na Fr Hr.
  destruct (class a) as [->|[->|[->|Fa]]]; [contradiction| | |].
  - destruct r as [s|s| |s m e]; cbn [is_fin rk] in *;
      try (exfalso; lra); discriminate.
  - destruct r as [s|s| |s m e]; cbn [is_fin rk] in *;
      try (exfalso; lra); discriminate.
  - apply (Rounds_not_nan (rk a * rk r)); [apply SFmul_Rounds|]; assumption.
Qed.

Lemma go_max_number x y :
  is_nan x = false -> is_nan y = false -> is_nan (go_max x y) = false.
Proof.
  intros Nx Ny. apply not_nan_spec in Nx, Ny. apply not_nan_spec.
  destruct (go_max_rk x y) as [[E _]|[[_ [N|N]]|(_ & _ & N & _)]];
    try contradiction; [rewrite E; discriminate|exact N].
Qed.

Lemma go_max0_nonneg x :
  is_nan x = false ->
  Prim2SF (go_max x 0) <> S754_nan /\ 0 <= rk (Prim2SF (go_max x 0)).
Proof.
  intros Nx. apply not_nan_spec in Nx. pose proof (bpow_pos 1024) as B.
  destruct (go_max_rk x 0) as [[E _]|[[_ [N|N]]|(_ & _ & N & R)]];
    change (Prim2SF 0) with (S754_zero false) in *;
    try contradiction; try discriminate.
  - rewrite E. split; [discriminate|]. cbn [rk]. lra.
  - split; [exact N|]. rewrite R. cbn [rk]. unfold Rmax. destruct Rle_dec; lra.
Qed.

(** On finite inputs and a positive finite ratio, the rate is a number. *)
Lemma specRate_number cap u1 u2 prev ratio m :
  is_finite cap = true -> is_finite u1 = true -> is_finite u2 = true ->
  is_finite prev = true -> is_finite (ratio / 100) = true ->
  (0 <? ratio / 100) = true -> is_nan m = false ->
  is_nan (specRate cap u1 u2 prev ratio m) = false.
Proof.
  intros Fc F1 F2 Fp Fr Hr Nm. unfold specRate.
  apply is_finite_sf in Fc, F1, F2, Fp, Fr.
  apply go_max_number; [|exact Nm].
  assert (NA : is_nan (u1 - prev) = false).
  { apply not_nan_spec. rewrite FloatAxioms.sub_spec.
    apply SFsub_fin_not_nan; try assumption; try apply Prim2SF_valid64.
    rewrite <- FloatAxioms.sub_spec. apply Prim2SF_valid64. }
  assert (NB : is_nan (u2 - cap) = false).
  { apply not_nan_spec. rewrite FloatAxioms.sub_spec.
    apply SFsub_fin_not_nan; try assumption; try apply Prim2SF_valid64.
    rewrite <- FloatAxioms.sub_spec. apply Prim2SF_valid64. }
  destruct (go_max0_nonneg _ NA) as [NA' PA].
  destruct (go_max0_nonneg _ NB) as [NB' PB].
  set (A := go_max (u1 - prev) 0) in *. set (B := go_max (u2 - cap) 0) in *.
  assert (HC : Prim2SF (cap - A) <> S754_nan /\
               (rk (Prim2SF (cap - A)) <= rk (Prim2SF cap))%R).
  { rewrite FloatAxioms.sub_spec.
    apply SFsub_fin_nonneg; try assumption; try apply Prim2SF_valid64.
    rewrite <- FloatAxioms.sub_spec. apply Prim2SF_valid64. }
  destruct HC as [NC UC].
  destruct (fin_strict _ Fc (Prim2SF_valid64 cap)) as [_ Bc].
  assert (ND : Prim2SF (cap - A - B) <> S754_nan).
  { rewrite FloatAxioms.sub_spec.
    apply SFsub_below_nonneg; try assumption; try apply Prim2SF_valid64; [|lra].
    rewrite <- FloatAxioms.sub_spec. apply Prim2SF_valid64. }
  apply not_nan_spec. rewrite FloatAxioms.mul_spec.
  apply SFmul_pos_not_nan; try assumption; try apply Prim2SF_valid64.
  - rewrite <- FloatAxioms.mul_spec. apply Prim2SF_valid64.
  - rewrite FloatAxioms.ltb_spec in Hr.
    change (Prim2SF 0) with (S754_zero false) in Hr. unfold SFltb in Hr.
    pose proof (SFcompare_rk (S754_zero false) (Prim2SF (ratio / 100))
                  eq_refl (Prim2SF_valid64 _)) as C.
    destruct (Prim2SF (ratio / 100)) as [s|s| |s mm e] eqn:E; try discriminate.
    + specialize (C ltac:(discriminate) ltac:(discriminate)).
      destruct SFcompare as [[]|]; try discriminate. exact C.
Qed.
End PrimitiveOrder.

(** ** The rate functions *)

Section Headroom.
Local Open Scope float_scope.
Implicit Types (l : Limits) (b : Broker) (t prev cap : float).

(** [headroom] on a broker of known instance type is the spec's formula
    on the outbound utilization and the [maximum] portion. *)
Lemma headroom_known l b t cap :
  l !! InstanceType b = Some cap →
  headroom l (Some b) t =
    (specRate cap (NetTX b) (NetTX b) t (idx l "maximum") (idx l "minimum"),
     None).
Proof. intros H. unfold headroom, specRate. rewrite H. reflexivity. Qed.

Lemma replicationHeadroom_leader l b prev cap :
  l !! InstanceType b = Some cap →
  replicationHeadroom l (Some b) "leader" prev =
    Returns (specRate cap (NetTX b) (NetTX b) prev
               (idx l "srcMax") (idx l "minimum"), None).
Proof.
  intros H. unfold replicationHeadroom, specRate. simpl. rewrite H.
  reflexivity.
Qed.

Lemma replicationHeadroom_follower l b prev cap :
  l !! InstanceType b = Some cap →
  replicationHeadroom l (Some b) "follower" prev =
    Returns (specRate cap (NetTX b) (NetRX b) prev
               (idx l "dstMax") (idx l "minimum"), None).
Proof.
  intros H. unfold replicationHeadroom, specRate. simpl. rewrite H.
  reflexivity.
Qed.

Lemma replicationHeadroom_other l (ob : option Broker) (rt : replicaType) prev :
  rt ≠ "leader"%string → rt ≠ "follower"%string →
  replicationHeadroom l ob rt prev =
    Returns (0, Some "invalid replica type"%string).
Proof.
  intros H1 H2. unfold replicationHeadroom.
  apply String.eqb_neq in H1, H2. rewrite H1, H2. reflexivity.
Qed.

Lemma specRate_not_below cap u1 u2 prev ratio m :
  (specRate cap u1 u2 prev ratio m <? m) = false.
Proof. apply go_max_not_below. Qed.

Lemma specRate_ge_finite cap u1 u2 prev ratio m :
  finiteInputs cap u1 u2 prev ratio m →
  (m <=? specRate cap u1 u2 prev ratio m) = true.
Proof.
  intros (Fc & F1 & F2 & Fp & Fr & Hr & Nm).
  apply go_max_ge; [exact Nm|].
  apply specRate_number; assumption.
Qed.

Lemma specRate_ge cap u1 u2 prev ratio m :
  is_nan m = false →
  is_nan (specRate cap u1 u2 prev ratio m) = false →
  (m <=? specRate cap u1 u2 prev ratio m) = true.
Proof. apply go_max_ge. Qed.
End Headroom.

(** ** Worked configurations *)

Section Examples.
Local Open Scope float_scope.

(** The flags' defaults with two instance types. *)
Definition defaultConfig : NewLimitsConfig := {|
  Minimum := 10; Maximum := 90;
  SourceMaximum := 90; DestinationMaximum := 90;
  CapacityMap := <["d2.2xlarge" := 120]> (<["d2.4xlarge" := 240]> ∅)
|}.

Definition defaultLimits : Limits :=
  default ∅ (fst (NewLimits defaultConfig)).

Definition mkBroker (ty : string) (tx rx : float) : Broker :=
  {| ID := 1001; InstanceType := ty; NetTX := tx; NetRX := rx |}.

(** A capacity map that names an instance type [maximum]. *)
Definition collidingConfig : NewLimitsConfig := {|
  Minimum := 10; Maximum := 90;
  SourceMaximum := 90; DestinationMaximum := 90;
  CapacityMap := <["d2.2xlarge" := 120]> (<["maximum" := -50]> ∅)
|}.

Definition collidingLimits : Limits :=
  default ∅ (fst (NewLimits collidingConfig)).

(** The binary64 value of Go's constant [100.0001]. *)
Definition justOver100 : float := 0x1.90001a36e2eb2p+6.
End Examples.

(** ** The claims on the limits engine *)

Section LimitsClaims.
Local Open Scope float_scope.
Implicit Types (l : Limits) (b : Broker) (t prev cap : float).

(** The decimal constant and its binary64 value: the correctly rounded
    quotient of two integers that binary64 holds exactly. *)
Example justOver100_decimal : justOver100 = 1000001 / 10000.
Proof. reflexivity. Qed.

Example defaultLimits_lookup :
  defaultLimits !! "d2.2xlarge"%string = Some 120 ∧
  idx defaultLimits "minimum" = 10 ∧ idx defaultLimits "maximum" = 90 ∧
  idx defaultLimits "srcMax" = 90 ∧ idx defaultLimits "dstMax" = 90.
Proof. vm_compute. auto. Qed.

(** C1, as stated, fails: a utilization that is NaN makes [headroom]
    return NaN, and NaN is not greater than or equal to the minimum. *)
Lemma headroom_nan_utilization :
  defaultLimits !! InstanceType (mkBroker "d2.2xlarge" nan 0) = Some 120 ∧
  headroom defaultLimits (Some (mkBroker "d2.2xlarge" nan 0)) 0 = (nan, None) ∧
  (idx defaultLimits "minimum"
     <=? fst (headroom defaultLimits (Some (mkBroker "d2.2xlarge" nan 0)) 0))
  = false.
Proof. vm_compute. auto. Qed.

(** C1, amended: for a broker of known instance type (and the leader or
    the follower role), the rate that [headroom] and [replicationHeadroom]
    return is never below the minimum, for all utilizations and previous
    rates; it is greater than or equal to the minimum whenever the rate
    and the minimum are numbers (not NaN), and so in particular whenever
    capacity, utilization and previous rate are finite, the ratio of the
    portion to 100 is finite and positive and the minimum is a number. *)
Theorem rate_never_below_minimum l b t cap :
  l !! InstanceType b = Some cap →
  (∃ r, headroom l (Some b) t = (r, None) ∧
        (r <? idx l "minimum") = false ∧
        (is_nan (idx l "minimum") = false → is_nan r = false →
         (idx l "minimum" <=? r) = true) ∧
        (finiteInputs cap (NetTX b) (NetTX b) t
           (idx l "maximum") (idx l "minimum") →
         (idx l "minimum" <=? r) = true)) ∧
  (∃ r, replicationHeadroom l (Some b) "leader" t = Returns (r, None) ∧
        (r <? idx l "minimum") = false ∧
        (is_nan (idx l "minimum") = false → is_nan r = false →
         (idx l "minimum" <=? r) = true) ∧
        (finiteInputs cap (NetTX b) (NetTX b) t
           (idx l "srcMax") (idx l "minimum") →
         (idx l "minimum" <=? r) = true)) ∧
  (∃ r, replicationHeadroom l (Some b) "follower" t = Returns (r, None) ∧
        (r <? idx l "minimum") = false ∧
        (is_nan (idx l "minimum") = false → is_nan r = false →
         (idx l "minimum" <=? r) = true) ∧
        (finiteInputs cap (NetTX b) (NetRX b) t
           (idx l "dstMax") (idx l "minimum") →
         (idx l "minimum" <=? r) = true)).
Proof.
  intros H.
  rewrite (headroom_known _ _ _ _ H), (replicationHeadroom_leader _ _ _ _ H),
    (replicationHeadroom_follower _ _ _ _ H).
  repeat split; eexists; (split; [reflexivity|]);
    (split; [apply specRate_not_below|]);
    (split; [apply specRate_ge|apply specRate_ge_finite]).
Qed.

Lemma rate_never_below_minimum_witness :
  (∃ r, headroom defaultLimits (Some (mkBroker "d2.2xlarge" 200 30)) 50
        = (r, None) ∧
        (r <? idx defaultLimits "minimum") = false ∧
        (is_nan (idx defaultLimits "minimum") = false → is_nan r = false →
         (idx defaultLimits "minimum" <=? r) = true) ∧
        (finiteInputs 120 200 200 50
           (idx defaultLimits "maximum") (idx defaultLimits "minimum") →
         (idx defaultLimits "minimum" <=? r) = true)) ∧
  (∃ r, replicationHeadroom defaultLimits
          (Some (mkBroker "d2.2xlarge" 200 30)) "leader" 50
        = Returns (r, None) ∧
        (r <? idx defaultLimits "minimum") = false ∧
        (is_nan (idx defaultLimits "minimum") = false → is_nan r = false →
         (idx defaultLimits "minimum" <=? r) = true) ∧
        (finiteInputs 120 200 200 50
           (idx defaultLimits "srcMax") (idx defaultLimits "minimum") →
         (idx defaultLimits "minimum" <=? r) = true)) ∧
  (∃ r, replicationHeadroom defaultLimits
          (Some (mkBroker "d2.2xlarge" 200 30)) "follower" 50
        = Returns (r, None) ∧
        (r <? idx defaultLimits "minimum") = false ∧
        (is_nan (idx defaultLimits "minimum") = false → is_nan r = false →
         (idx defaultLimits "minimum" <=? r) = true) ∧
        (finiteInputs 120 200 30 50
           (idx defaultLimits "dstMax") (idx defaultLimits "minimum") →
         (idx defaultLimits "minimum" <=? r) = true)).
Proof.
  apply (rate_never_below_minimum defaultLimits
           (mkBroker "d2.2xlarge" 200 30) 50 120).
  vm_compute. reflexivity.
Defined.

(** The inputs of the witness are finite; its rates are the minimum,
    the headroom being negative, and a lower utilization gives 90. *)
Example default_rates_on_finite_inputs :
  finiteInputs 120 200 200 50
    (idx defaultLimits "maximum") (idx defaultLimits "minimum") ∧
  headroom defaultLimits (Some (mkBroker "d2.2xlarge" 200 30)) 50
  = (10, None) ∧
  replicationHeadroom defaultLimits (Some (mkBroker "d2.2xlarge" 200 30))
    "follower" 50 = Returns (10, None) ∧
  replicationHeadroom defaultLimits (Some (mkBroker "d2.2xlarge" 80 30))
    "follower" 60 = Returns (90, None).
Proof. vm_compute. repeat split. Qed.

(** C2, as stated, fails for [replicationHeadroom]: on a nil broker the
    leader arm panics, and on an unknown instance type with a role that
    is neither leader nor follower the rate is 0, not the minimum. *)
Lemma replicationHeadroom_nil_or_bad_role :
  replicationHeadroom defaultLimits None "leader" 50 = Panics nilDeref ∧
  defaultLimits !! InstanceType (mkBroker "m5.large" 200 30) = None ∧
  replicationHeadroom defaultLimits (Some (mkBroker "m5.large" 200 30))
    "observer" 50 = Returns (0, Some "invalid replica type"%string) ∧
  (0 =? idx defaultLimits "minimum") = false.
Proof. vm_compute. auto. Qed.

(** C2, amended: [headroom] returns exactly the minimum and an error
    when the broker is nil or its instance type has no capacity entry;
    [replicationHeadroom] returns exactly the minimum and an error for a
    broker whose instance type has no capacity entry, in the leader and
    the follower role; in any other role it returns 0 and the
    invalid-role error, whatever the broker. *)
Theorem minimum_and_error_when_unknown l (ob : option Broker) t :
  (ob = None ∨ ∃ b, ob = Some b ∧ l !! InstanceType b = None) →
  (∃ e, headroom l ob t = (idx l "minimum", Some e)) ∧
  (∀ b (rt : replicaType), ob = Some b →
     rt = "leader"%string ∨ rt = "follower"%string →
     ∃ e, replicationHeadroom l ob rt t = Returns (idx l "minimum", Some e)) ∧
  (∀ rt : replicaType, rt ≠ "leader"%string → rt ≠ "follower"%string →
     replicationHeadroom l ob rt t
     = Returns (0, Some "invalid replica type"%string)).
Proof.
  intros H. split; [|split].
  - destruct H as [-> | (b & -> & H)].
    + eexists; reflexivity.
    + unfold headroom. rewrite H. eexists; reflexivity.
  - intros b rt -> Hrt. destruct H as [[=] | (b' & [= <-] & H)].
    destruct Hrt as [-> | ->]; unfold replicationHeadroom; simpl;
      rewrite H; eexists; reflexivity.
  - intros rt. apply replicationHeadroom_other.
Qed.

Lemma minimum_and_error_when_unknown_witness :
  (∃ e, headroom defaultLimits (Some (mkBroker "m5.large" 200 30)) 50
        = (idx defaultLimits "minimum", Some e)) ∧
  (∀ b (rt : replicaType), Some (mkBroker "m5.large" 200 30) = Some b →
     rt = "leader"%string ∨ rt = "follower"%string →
     ∃ e, replicationHeadroom defaultLimits
            (Some (mkBroker "m5.large" 200 30)) rt 50
          = Returns (idx defaultLimits "minimum", Some e)) ∧
  (∀ rt : replicaType, rt ≠ "leader"%string → rt ≠ "follower"%string →
     replicationHeadroom defaultLimits (Some (mkBroker "m5.large" 200 30))
       rt 50
     = Returns (0, Some "invalid replica type"%string)).
Proof.
  apply (minimum_and_error_when_unknown defaultLimits
           (Some (mkBroker "m5.large" 200 30)) 50).
  right. exists (mkBroker "m5.large" 200 30). split; reflexivity.
Defined.

(** C3: for a broker of known instance type and every previous rate [t],
    [headroom] returns
    max((capacity − max(outbound − t, 0) − max(outbound − capacity, 0))
        × (maximum/100), minimum) and no error. *)
Theorem headroom_formula l b t cap :
  l !! InstanceType b = Some cap →
  headroom l (Some b) t =
    (go_max ((cap - go_max (NetTX b - t) 0 - go_max (NetTX b - cap) 0)
             * (idx l "maximum" / 100))
            (idx l "minimum"),
     None).
Proof. intros H. unfold headroom. rewrite H. reflexivity. Qed.

Lemma headroom_formula_witness :
  headroom defaultLimits (Some (mkBroker "d2.2xlarge" 80 30)) 50 =
    (go_max ((120 - go_max (80 - 50) 0 - go_max (80 - 120) 0)
             * (idx defaultLimits "maximum" / 100))
            (idx defaultLimits "minimum"),
     None).
Proof.
  apply (headroom_formula defaultLimits (mkBroker "d2.2xlarge" 80 30) 50 120).
  vm_compute. reflexivity.
Defined.

Example headroom_default_value :
  headroom defaultLimits (Some (mkBroker "d2.2xlarge" 80 30)) 50 = (81, None).
Proof. vm_compute. reflexivity. Qed.

(** C4: for a broker of known instance type, [replicationHeadroom] in
    the leader (source) role computes the rate from the outbound
    utilization and [srcMax], in the follower (destination) role from
    the inbound utilization and [dstMax]; for any other role it returns
    0 and the invalid-role error. *)
Theorem replicationHeadroom_roles l b prev cap :
  l !! InstanceType b = Some cap →
  replicationHeadroom l (Some b) "leader" prev =
    Returns (specRate cap (NetTX b) (NetTX b) prev
               (idx l "srcMax") (idx l "minimum"), None) ∧
  replicationHeadroom l (Some b) "follower" prev =
    Returns (specRate cap (NetTX b) (NetRX b) prev
               (idx l "dstMax") (idx l "minimum"), None) ∧
  (∀ rt : replicaType, rt ≠ "leader"%string → rt ≠ "follower"%string →
     replicationHeadroom l (Some b) rt prev =
       Returns (0, Some "invalid replica type"%string)).
Proof.
  intros H. split; [|split].
  - apply replicationHeadroom_leader, H.
  - apply replicationHeadroom_follower, H.
  - intros rt. apply replicationHeadroom_other.
Qed.

Lemma replicationHeadroom_roles_witness :
  replicationHeadroom defaultLimits (Some (mkBroker "d2.2xlarge" 80 30))
    "leader" 50 =
    Returns (specRate 120 80 80 50
               (idx defaultLimits "srcMax") (idx defaultLimits "minimum"),
             None) ∧
  replicationHeadroom defaultLimits (Some (mkBroker "d2.2xlarge" 80 30))
    "follower" 50 =
    Returns (specRate 120 80 30 50
               (idx defaultLimits "dstMax") (idx defaultLimits "minimum"),
             None) ∧
  (∀ rt : replicaType, rt ≠ "leader"%string → rt ≠ "follower"%string →
     replicationHeadroom defaultLimits (Some (mkBroker "d2.2xlarge" 80 30))
       rt 50 = Returns (0, Some "invalid replica type"%string)).
Proof.
  apply (replicationHeadroom_roles defaultLimits
           (mkBroker "d2.2xlarge" 80 30) 50 120).
  vm_compute. reflexivity.
Defined.

(** C5: in [replicationHeadroom], for the leader and for the follower
    role alike, the non-throttle term is max(outbound − previous, 0),
    taken from the outbound utilization whatever the role, and the
    over-capacity term is max(u − capacity, 0) for the utilization [u]
    of the role: outbound for the leader, inbound for the follower. *)
Theorem replicationHeadroom_terms l b (rt : replicaType) prev cap :
  l !! InstanceType b = Some cap →
  rt = "leader"%string ∨ rt = "follower"%string →
  let u := if String.eqb rt "leader" then NetTX b else NetRX b in
  let ratio := if String.eqb rt "leader" then idx l "srcMax"
               else idx l "dstMax" in
  let nonThrottleUtil := go_max (NetTX b - prev) 0 in
  let overCap := go_max (u - cap) 0 in
  replicationHeadroom l (Some b) rt prev =
    Returns (go_max ((cap - nonThrottleUtil - overCap) * (ratio / 100))
                    (idx l "minimum"), None).
Proof.
  intros H [-> | ->]; unfold replicationHeadroom; simpl; rewrite H;
    reflexivity.
Qed.

Lemma replicationHeadroom_terms_witness :
  replicationHeadroom defaultLimits (Some (mkBroker "d2.2xlarge" 80 130))
    "follower" 50 =
    Returns (go_max ((120 - go_max (80 - 50) 0 - go_max (130 - 120) 0)
                     * (idx defaultLimits "dstMax" / 100))
                    (idx defaultLimits "minimum"), None).
Proof.
  apply (replicationHeadroom_terms defaultLimits
           (mkBroker "d2.2xlarge" 80 130) "follower" 50 120).
  - vm_compute. reflexivity.
  - right. reflexivity.
Defined.

Example replicationHeadroom_follower_value :
  replicationHeadroom defaultLimits (Some (mkBroker "d2.2xlarge" 80 130))
    "follower" 50 = Returns (72, None).
Proof. vm_compute. reflexivity. Qed.
(** C6, as stated, fails for a [Limits] whose [maximum] entry is
    negative, which [NewLimits] builds when the capacity map has the key
    [maximum]: the rate then grows with the utilization. *)
Lemma headroom_grows_with_negative_maximum :
  NewLimits collidingConfig = (Some collidingLimits, None) ∧
  collidingLimits !! InstanceType (mkBroker "d2.2xlarge" 50 0) = Some 120 ∧
  (NetTX (mkBroker "d2.2xlarge" 50 0) <=? NetTX (mkBroker "d2.2xlarge" 250 0))
  = true ∧
  headroom collidingLimits (Some (mkBroker "d2.2xlarge" 50 0)) 0
  = (10, None) ∧
  headroom collidingLimits (Some (mkBroker "d2.2xlarge" 250 0)) 0
  = (130, None) ∧
  (fst (headroom collidingLimits (Some (mkBroker "d2.2xlarge" 250 0)) 0)
     <=? fst (headroom collidingLimits (Some (mkBroker "d2.2xlarge" 50 0)) 0))
  = false.
Proof. vm_compute. repeat split. Qed.

(** C6, amended: for a broker of known instance type and a [Limits] whose
    [maximum] entry is not negative, with the capacity and the previous
    rate held fixed the rate of [headroom] does not increase as the
    outbound utilization increases, and with the utilization held fixed it
    does not decrease as the previous rate increases; in both directions
    the later rate is less than or equal to (greater than or equal to)
    the earlier one whenever both are numbers, and the rate is never
    below the minimum. All arithmetic is binary64, rounding included. *)
Theorem headroom_monotone l b1 b2 t1 t2 cap :
  InstanceType b1 = InstanceType b2 →
  l !! InstanceType b1 = Some cap →
  (idx l "maximum" <? 0) = false →
  let h := λ b t, fst (headroom l (Some b) t) in
  ((NetTX b1 <=? NetTX b2) = true →
     (h b1 t1 <? h b2 t1) = false ∧
     (is_nan (h b1 t1) = false → is_nan (h b2 t1) = false →
      (h b2 t1 <=? h b1 t1) = true)) ∧
  ((t1 <=? t2) = true →
     (h b1 t2 <? h b1 t1) = false ∧
     (is_nan (h b1 t1) = false → is_nan (h b1 t2) = false →
      (h b1 t1 <=? h b1 t2) = true)) ∧
  (h b1 t1 <? idx l "minimum") = false.
Proof.
  intros Hty H1 Hmax h.
  assert (H2 : l !! InstanceType b2 = Some cap) by (rewrite <- Hty; exact H1).
  assert (E1 : ∀ t, h b1 t = specRate cap (NetTX b1) (NetTX b1) t
                               (idx l "maximum") (idx l "minimum")).
  { intros t. unfold h. rewrite (headroom_known _ _ _ _ H1). reflexivity. }
  assert (E2 : ∀ t, h b2 t = specRate cap (NetTX b2) (NetTX b2) t
                               (idx l "maximum") (idx l "minimum")).
  { intros t. unfold h. rewrite (headroom_known _ _ _ _ H2). reflexivity. }
  split; [|split].
  - intros Hu. apply leb_fle in Hu.
    assert (L : (h b1 t1 <? h b2 t1) = false).
    { rewrite E1, E2.
      apply specRate_monotone; auto using fle_refl. }
    split; [exact L|]. intros N1 N2. apply not_ltb_leb; assumption.
  - intros Ht. apply leb_fle in Ht.
    assert (L : (h b1 t2 <? h b1 t1) = false).
    { rewrite !E1.
      apply specRate_monotone; auto using fle_refl. }
    split; [exact L|]. intros N1 N2. apply not_ltb_leb; assumption.
  - rewrite E1. apply specRate_not_below.
Qed.

Lemma headroom_monotone_witness :
  let h := λ b t, fst (headroom defaultLimits (Some b) t) in
  ((NetTX (mkBroker "d2.2xlarge" 80 30) <=? NetTX (mkBroker "d2.2xlarge" 100 30))
   = true →
     (h (mkBroker "d2.2xlarge" 80 30) 50 <? h (mkBroker "d2.2xlarge" 100 30) 50)
     = false ∧
     (is_nan (h (mkBroker "d2.2xlarge" 80 30) 50) = false →
      is_nan (h (mkBroker "d2.2xlarge" 100 30) 50) = false →
      (h (mkBroker "d2.2xlarge" 100 30) 50 <=? h (mkBroker "d2.2xlarge" 80 30) 50)
      = true)) ∧
  ((50 <=? 60) = true →
     (h (mkBroker "d2.2xlarge" 80 30) 60 <? h (mkBroker "d2.2xlarge" 80 30) 50)
     = false ∧
     (is_nan (h (mkBroker "d2.2xlarge" 80 30) 50) = false →
      is_nan (h (mkBroker "d2.2xlarge" 80 30) 60) = false →
      (h (mkBroker "d2.2xlarge" 80 30) 50 <=? h (mkBroker "d2.2xlarge" 80 30) 60)
      = true)) ∧
  (h (mkBroker "d2.2xlarge" 80 30) 50 <? idx defaultLimits "minimum") = false.
Proof.
  apply (headroom_monotone defaultLimits (mkBroker "d2.2xlarge" 80 30)
           (mkBroker "d2.2xlarge" 100 30) 50 60 120).
  - reflexivity.
  - vm_compute. reflexivity.
  - vm_compute. reflexivity.
Defined.

Example default_headroom_values :
  fst (headroom defaultLimits (Some (mkBroker "d2.2xlarge" 80 30)) 50) = 81 ∧
  fst (headroom defaultLimits (Some (mkBroker "d2.2xlarge" 100 30)) 50) = 63 ∧
  fst (headroom defaultLimits (Some (mkBroker "d2.2xlarge" 80 30)) 60) = 90.
Proof. vm_compute. repeat split. Qed.
End LimitsClaims.

(** ** [NewLimits] *)

Section NewLimitsClaims.
Local Open Scope float_scope.

(** The spec's words for a rejected configuration. *)
Definition specRejects (c : NewLimitsConfig) : Prop :=
  (Minimum c <=? 0) = true ∨
  ((Maximum c <=? 0) = true ∨ (100 <? Maximum c) = true) ∨
  ((SourceMaximum c <=? 0) = true ∨ (100 <? SourceMaximum c) = true) ∨
  ((DestinationMaximum c <=? 0) = true ∨
   (100 <? DestinationMaximum c) = true).

(** A configuration with its three portions replaced. *)
Definition withPortions (c : NewLimitsConfig) (mx src dst : float)
  : NewLimitsConfig :=
  {| Minimum := Minimum c; Maximum := mx; SourceMaximum := src;
     DestinationMaximum := dst; CapacityMap := CapacityMap c |}.

Lemma NewLimits_rejected c :
  specRejects c → ∃ e, NewLimits c = (None, Some e).
Proof.
  unfold specRejects, NewLimits.
  intros [H | [[H | H] | [[H | H] | [H | H]]]];
    repeat match goal with
      | |- context [?x <=? ?y] => destruct (x <=? y) eqn:?; simpl
      | |- context [?x <? ?y] => destruct (x <? y) eqn:?; simpl
      end; try congruence; eauto.
Qed.

Lemma NewLimits_accepted c :
  ¬ specRejects c →
  NewLimits c = (Some (mergeCapacity (scalarLimits c) (CapacityMap c)), None).
Proof.
  unfold specRejects, NewLimits. intros H.
  repeat match goal with
    | |- context [?x <=? ?y] => destruct (x <=? y) eqn:?; simpl
    | |- context [?x <? ?y] => destruct (x <? y) eqn:?; simpl
    end; try reflexivity; exfalso; apply H; tauto.
Qed.

Lemma specRejects_dec c : specRejects c ∨ ¬ specRejects c.
Proof.
  unfold specRejects.
  destruct (Minimum c <=? 0), (Maximum c <=? 0), (100 <? Maximum c),
    (SourceMaximum c <=? 0), (100 <? SourceMaximum c),
    (DestinationMaximum c <=? 0), (100 <? DestinationMaximum c);
    try (left; tauto); right; intuition congruence.
Qed.

(** C7: [NewLimits] returns an error and no [Limits] exactly when the
    minimum is <= 0 or one of the three portions is <= 0 or > 100, and a
    [Limits] and no error otherwise; portions of exactly 100 are
    accepted, and 100.0001 is rejected in each of the three places. *)
Theorem NewLimits_validation c :
  ((∃ e, NewLimits c = (None, Some e)) ↔ specRejects c) ∧
  ((∃ lim, NewLimits c = (Some lim, None)) ↔ ¬ specRejects c) ∧
  (∃ lim, NewLimits (withPortions defaultConfig 100 100 100)
          = (Some lim, None)) ∧
  (∃ e, NewLimits (withPortions defaultConfig justOver100 100 100)
        = (None, Some e)) ∧
  (∃ e, NewLimits (withPortions defaultConfig 100 justOver100 100)
        = (None, Some e)) ∧
  (∃ e, NewLimits (withPortions defaultConfig 100 100 justOver100)
        = (None, Some e)).
Proof.
  split; [|split].
  - split; [|apply NewLimits_rejected].
    intros [e He]. destruct (specRejects_dec c) as [|N]; [done|].
    rewrite (NewLimits_accepted c N) in He. discriminate.
  - split.
    + intros [lim Hl] R. destruct (NewLimits_rejected c R) as [e He].
      congruence.
    + intros N. rewrite (NewLimits_accepted c N). eauto.
  - repeat split; eexists; vm_compute; reflexivity.
Qed.

(** The loop over the capacity map leaves, under every key, the entry of
    the capacity map when there is one and the entry it started from
    otherwise. *)
Lemma mergeCapacity_lookup (lim cm : Limits) (k : string) :
  mergeCapacity lim cm !! k =
    match cm !! k with Some v => Some v | None => lim !! k end.
Proof.
  unfold mergeCapacity.
  apply (map_fold_weak_ind
           (λ r (m : gmap string float),
              r !! k = match m !! k with Some v => Some v | None => lim !! k end)).
  - rewrite lookup_empty. reflexivity.
  - intros i x m r Hi IH. destruct (decide (i = k)) as [->|Hne].
    + rewrite !lookup_insert_eq. reflexivity.
    + rewrite !lookup_insert_ne by done. exact IH.
Qed.

(** C10: for a configuration that [NewLimits] accepts, each of the keys
    [minimum], [maximum], [srcMax] and [dstMax] that the capacity map
    does not contain is mapped to the validated scalar, and every key
    that the capacity map contains, these four included, is mapped to
    the capacity map's value, which replaces the scalar. *)
Theorem NewLimits_sentinel_keys c (lim : Limits) :
  NewLimits c = (Some lim, None) →
  (CapacityMap c !! "minimum"%string = None →
     lim !! "minimum"%string = Some (Minimum c)) ∧
  (CapacityMap c !! "maximum"%string = None →
     lim !! "maximum"%string = Some (Maximum c)) ∧
  (CapacityMap c !! "srcMax"%string = None →
     lim !! "srcMax"%string = Some (SourceMaximum c)) ∧
  (CapacityMap c !! "dstMax"%string = None →
     lim !! "dstMax"%string = Some (DestinationMaximum c)) ∧
  (∀ (k : string) v, CapacityMap c !! k = Some v → lim !! k = Some v).
Proof.
  intros H.
  assert (lim = mergeCapacity (scalarLimits c) (CapacityMap c)) as ->.
  { destruct (specRejects_dec c) as [R|N].
    - destruct (NewLimits_rejected c R) as [e He]. congruence.
    - rewrite (NewLimits_accepted c N) in H. congruence. }
  repeat split; try (intros Hk; rewrite mergeCapacity_lookup, Hk;
                     reflexivity).
  intros k v Hk. rewrite mergeCapacity_lookup, Hk. reflexivity.
Qed.

Lemma NewLimits_sentinel_keys_witness :
  (CapacityMap collidingConfig !! "minimum"%string = None →
     collidingLimits !! "minimum"%string = Some (Minimum collidingConfig)) ∧
  (CapacityMap collidingConfig !! "maximum"%string = None →
     collidingLimits !! "maximum"%string = Some (Maximum collidingConfig)) ∧
  (CapacityMap collidingConfig !! "srcMax"%string = None →
     collidingLimits !! "srcMax"%string
     = Some (SourceMaximum collidingConfig)) ∧
  (CapacityMap collidingConfig !! "dstMax"%string = None →
     collidingLimits !! "dstMax"%string
     = Some (DestinationMaximum collidingConfig)) ∧
  (∀ (k : string) v, CapacityMap collidingConfig !! k = Some v →
     collidingLimits !! k = Some v).
Proof.
  apply (NewLimits_sentinel_keys collidingConfig collidingLimits).
  vm_compute. reflexivity.
Defined.

Example collidingLimits_maximum :
  idx collidingLimits "maximum" = -50 ∧ idx collidingLimits "minimum" = 10.
Proof. vm_compute. auto. Qed.
End NewLimitsClaims.


(** * Properties of the administrative API *)

(** ** Example collaborators *)

Definition quote : string := String "034"%char EmptyString.

(** An encoder for the examples: the record as a JSON object. *)
Definition exampleEncode (c : ThrottleOverrideConfig) : string :=
  "{" +:+ quote +:+ "rate" +:+ quote +:+ ":" +:+ pretty (Rate c) +:+ ","
  +:+ quote +:+ "autoremove" +:+ quote +:+ ":" +:+ showBool (AutoRemove c)
  +:+ "}".

(** Request helpers for the examples: the whole query is the rate, and
    autoremove is never given. *)
Definition exampleParseRate (req : Request) : Z * option error :=
  match Atoi (RawQuery req) with
  | Some n => (n, None)
  | None => (0%Z, Some "rate param must be supplied as an integer"%string)
  end.

Definition exampleParseAutoRemove (req : Request) : bool * option error :=
  (false, None).

Definition exampleParsePaths (req : Request) : list string := [URLPath req].

Definition exampleLogReq (req : Request) : string :=
  Method req +:+ " " +:+ URLPath req.

(** A handler that records the writes it is asked for, in front of any
    other handler: what a handler function has not changed in such a store
    it has not written. *)
Inductive zkWrite : Type :=
| DidCreate (p d : string)
| DidSet (p d : string).

#[export] Instance tracedHandler {ZK : Type} `{!Handler ZK}
  : Handler (ZK * list zkWrite) := {
  zkExists s p := zkExists (fst s) p;
  zkCreate s p d :=
    let '(zk1, e) := zkCreate (fst s) p d in
    ((zk1, snd s ++ [DidCreate p d]), e);
  zkGet s p := zkGet (fst s) p;
  zkSet s p d :=
    let '(zk1, e) := zkSet (fst s) p d in
    ((zk1, snd s ++ [DidSet p d]), e)
}.

Definition apiConfig : APIConfig :=
  {| Listen := "localhost:8080"; ZKPrefix := "autothrottle";
     RateSetting := EmptyString |}.

Definition overridePath : string := "/autothrottle/override_rate".

(** A store with the legacy record, a bare integer. *)
Definition legacyStore : memStore :=
  <[overridePath := "150"%string]>
    (<["/autothrottle"%string := EmptyString]> ∅).

Definition emptyResponse : Response :=
  {| status := None; body := EmptyString |}.

Section APIClaims.
Context {ZK : Type} `{!Handler ZK}.
Variable setThrottleOverride :
  ZK → string → ThrottleOverrideConfig → ZK * option error.
Variable getThrottleOverride :
  ZK → string → option ThrottleOverrideConfig * option error.
Variable parseRateParam : Request → Z * option error.
Variable parseAutoRemoveParam : Request → bool * option error.
Variable parsePaths : Request → list string.
Variable logReq : Request → string.

(** C8: when the override record exists at initialization and its
    content parses as a bare integer, [initAPI] sets the override to the
    structured record of that rate with autoRemove false (the store it
    leaves is the one that [setThrottleOverride] returns for this record
    at the override path; a failed set is fatal) and logs the migration;
    when the content does not parse as a bare integer, the store is left
    as it was and nothing is logged. *)
Theorem initAPI_migrates_legacy (c : APIConfig) (zk : ZK)
    (r : string) (e : option error) :
  zkExists zk ("/" +:+ ZKPrefix c +:+ "/" +:+ overrideRateZnode)
    = (true, None) →
  zkGet zk ("/" +:+ ZKPrefix c +:+ "/" +:+ overrideRateZnode) = (r, e) →
  (∀ rate zk1,
     Atoi r = Some rate →
     setThrottleOverride zk
       ("/" +:+ ZKPrefix c +:+ "/" +:+ overrideRateZnode)
       {| Rate := rate; AutoRemove := false |} = (zk1, None) →
     initAPI setThrottleOverride c zk =
       Serving {| Listen := Listen c; ZKPrefix := ZKPrefix c;
                  RateSetting := overrideRateZnode |}
         ("/" +:+ ZKPrefix c +:+ "/" +:+ overrideRateZnode) zk1
         ["Throttle override config format updated"%string]) ∧
  (∀ rate zk1 err,
     Atoi r = Some rate →
     setThrottleOverride zk
       ("/" +:+ ZKPrefix c +:+ "/" +:+ overrideRateZnode)
       {| Rate := rate; AutoRemove := false |} = (zk1, Some err) →
     initAPI setThrottleOverride c zk = Fatal err zk1) ∧
  (Atoi r = None →
     initAPI setThrottleOverride c zk =
       Serving {| Listen := Listen c; ZKPrefix := ZKPrefix c;
                  RateSetting := overrideRateZnode |}
         ("/" +:+ ZKPrefix c +:+ "/" +:+ overrideRateZnode) zk []).
Proof.
  intros Hex Hget. unfold initAPI. cbn [ZKPrefix].
  rewrite Hex, Hget. repeat split.
  - intros rate zk1 -> ->. reflexivity.
  - intros rate zk1 err -> ->. reflexivity.
  - intros ->. reflexivity.
Qed.

(** C9: for a POST to the throttle endpoint whose rate parameter, or
    else whose autoremove parameter, fails to parse, the handler writes
    the text of the parse error to the response body and returns the
    store it was given: [setThrottleOverride] is not called and no write
    reaches the store. *)
Theorem setThrottle_parse_failure (path : string) (w : Response)
    (req : Request) (zk : ZK) :
  Method req = "POST"%string →
  (∀ rate err, parseRateParam req = (rate, Some err) →
     throttleGetSet setThrottleOverride getThrottleOverride parseRateParam
       parseAutoRemoveParam parsePaths logReq path w req zk
     = ({| status := status w; body := body w +:+ err |}, zk, [logReq req])) ∧
  (∀ rate autoRemove err,
     parseRateParam req = (rate, None) →
     parseAutoRemoveParam req = (autoRemove, Some err) →
     throttleGetSet setThrottleOverride getThrottleOverride parseRateParam
       parseAutoRemoveParam parsePaths logReq path w req zk
     = ({| status := status w; body := body w +:+ err |}, zk, [logReq req])).
Proof.
  intros HM. unfold throttleGetSet, setThrottle. rewrite HM. simpl.
  split.
  - intros rate err ->. reflexivity.
  - intros rate autoRemove err -> ->. reflexivity.
Qed.
End APIClaims.

(** The override functions of the examples: those of the spec, with the
    example encoder and a decoder that knows no format. *)
Definition exampleSet {ZK : Type} `{!Handler ZK}
  : ZK → string → ThrottleOverrideConfig → ZK * option error :=
  specSetThrottleOverride exampleEncode.

Definition exampleGet {ZK : Type} `{!Handler ZK}
  : ZK → string → option ThrottleOverrideConfig * option error :=
  specGetThrottleOverride (λ _, None).

Example Atoi_examples :
  Atoi "150" = Some 150%Z ∧ Atoi "-7" = Some (-7)%Z ∧ Atoi "+7" = Some 7%Z ∧
  Atoi "007" = Some 7%Z ∧ Atoi EmptyString = None ∧ Atoi "-" = None ∧
  Atoi "1_000" = None ∧ Atoi " 5" = None ∧ Atoi "1.5" = None ∧
  Atoi "9223372036854775807" = Some 9223372036854775807%Z ∧
  Atoi "9223372036854775808" = None ∧
  Atoi (exampleEncode {| Rate := 150; AutoRemove := false |}) = None.
Proof. vm_compute. repeat split. Qed.

Lemma initAPI_migrates_legacy_witness :
  (∀ rate zk1,
     Atoi "150" = Some rate →
     exampleSet legacyStore
       ("/" +:+ ZKPrefix apiConfig +:+ "/" +:+ overrideRateZnode)
       {| Rate := rate; AutoRemove := false |} = (zk1, None) →
     initAPI exampleSet apiConfig legacyStore =
       Serving {| Listen := Listen apiConfig; ZKPrefix := ZKPrefix apiConfig;
                  RateSetting := overrideRateZnode |}
         ("/" +:+ ZKPrefix apiConfig +:+ "/" +:+ overrideRateZnode) zk1
         ["Throttle override config format updated"%string]) ∧
  (∀ rate zk1 err,
     Atoi "150" = Some rate →
     exampleSet legacyStore
       ("/" +:+ ZKPrefix apiConfig +:+ "/" +:+ overrideRateZnode)
       {| Rate := rate; AutoRemove := false |} = (zk1, Some err) →
     initAPI exampleSet apiConfig legacyStore = Fatal err zk1) ∧
  (Atoi "150" = None →
     initAPI exampleSet apiConfig legacyStore =
       Serving {| Listen := Listen apiConfig; ZKPrefix := ZKPrefix apiConfig;
                  RateSetting := overrideRateZnode |}
         ("/" +:+ ZKPrefix apiConfig +:+ "/" +:+ overrideRateZnode)
         legacyStore []).
Proof.
  apply (initAPI_migrates_legacy exampleSet apiConfig legacyStore "150" None).
  - vm_compute. reflexivity.
  - vm_compute. reflexivity.
Defined.

(** The legacy record ["150"] after initialization: the structured record
    with rate 150 and autoRemove false is what the store holds. *)
Example initAPI_legacy_150 :
  initAPI exampleSet apiConfig legacyStore =
    Serving {| Listen := "localhost:8080"; ZKPrefix := "autothrottle";
               RateSetting := "override_rate" |}
      overridePath
      (<[overridePath := exampleEncode {| Rate := 150; AutoRemove := false |}]>
         legacyStore)
      ["Throttle override config format updated"%string].
Proof. vm_compute. reflexivity. Qed.

(** A record that is already structured is not a bare integer, and the
    migration leaves it alone. *)
Example initAPI_structured_untouched :
  initAPI exampleSet apiConfig
    (<[overridePath := exampleEncode {| Rate := 150; AutoRemove := true |}]>
       legacyStore) =
    Serving {| Listen := "localhost:8080"; ZKPrefix := "autothrottle";
               RateSetting := "override_rate" |}
      overridePath
      (<[overridePath := exampleEncode {| Rate := 150; AutoRemove := true |}]>
         legacyStore)
      [].
Proof. vm_compute. reflexivity. Qed.

Definition badRateRequest : Request :=
  {| Method := "POST"; URLPath := "/throttle"; RawQuery := "fast" |}.

Lemma setThrottle_parse_failure_witness :
  (∀ rate err, exampleParseRate badRateRequest = (rate, Some err) →
     throttleGetSet exampleSet exampleGet exampleParseRate
       exampleParseAutoRemove exampleParsePaths exampleLogReq overridePath
       emptyResponse badRateRequest (legacyStore, [])
     = ({| status := status emptyResponse;
           body := body emptyResponse +:+ err |},
        (legacyStore, []), [exampleLogReq badRateRequest])) ∧
  (∀ rate autoRemove err,
     exampleParseRate badRateRequest = (rate, None) →
     exampleParseAutoRemove badRateRequest = (autoRemove, Some err) →
     throttleGetSet exampleSet exampleGet exampleParseRate
       exampleParseAutoRemove exampleParsePaths exampleLogReq overridePath
       emptyResponse badRateRequest (legacyStore, [])
     = ({| status := status emptyResponse;
           body := body emptyResponse +:+ err |},
        (legacyStore, []), [exampleLogReq badRateRequest])).
Proof.
  apply (setThrottle_parse_failure (ZK := memStore * list zkWrite)
           exampleSet exampleGet exampleParseRate exampleParseAutoRemove
           exampleParsePaths exampleLogReq overridePath
           emptyResponse badRateRequest (legacyStore, [])).
  reflexivity.
Defined.

(** A request that parses does reach the store, and the trace shows the
    one write. *)
Example setThrottle_good_request :
  throttleGetSet exampleSet exampleGet exampleParseRate
    exampleParseAutoRemove exampleParsePaths exampleLogReq overridePath
    emptyResponse
    {| Method := "POST"; URLPath := "/throttle"; RawQuery := "200" |}
    (legacyStore, [])
  = ({| status := None;
        body := "throttle successfully set to 200MB/s, autoremove==false"
                +:+ nl |},
     (<[overridePath := exampleEncode {| Rate := 200; AutoRemove := false |}]>
        legacyStore,
      [DidSet overridePath
         (exampleEncode {| Rate := 200; AutoRemove := false |})]),
     ["POST /throttle"%string]).
Proof. vm_compute. reflexivity. Qed.

(** A request whose rate does not parse: the error text is the body, and
    neither the store nor the trace of writes has changed. *)
Example setThrottle_bad_rate_request :
  throttleGetSet exampleSet exampleGet exampleParseRate
    exampleParseAutoRemove exampleParsePaths exampleLogReq overridePath
    emptyResponse badRateRequest (legacyStore, [])
  = ({| status := None;
        body := "rate param must be supplied as an integer" |},
     (legacyStore, []), ["POST /throttle"%string]).
Proof. vm_compute. reflexivity. Qed.

(** * Further properties

    What follows goes beyond the claims of the specification: bounds,
    limit cases and compositions that the code shows. *)

(** ** More on binary64 *)

Section MoreFloats.
Local Open Scope R_scope.
Local Open Scope float_scope.

Lemma Prim2SF_inj x y : Prim2SF x = Prim2SF y -> x = y.
Proof.
  intros H. rewrite <- (SF2Prim_Prim2SF x), <- (SF2Prim_Prim2SF y), H.
  reflexivity.
Qed.

Lemma SFsub_zero_r a : SF64sub a (S754_zero false) = a.
Proof. destruct a as [[|]|s| |s m e]; reflexivity. Qed.

Lemma sub_zero_r x : x - 0 = x.
Proof.
  apply Prim2SF_inj. rewrite FloatAxioms.sub_spec.
  change (Prim2SF 0) with (S754_zero false). apply SFsub_zero_r.
Qed.

Lemma fle_zero_max0 x : fle 0 (go_max x 0).
Proof.
  unfold fle, sle. change (Prim2SF 0) with (S754_zero false).
  pose proof (bpow_pos 1024) as B.
  destruct (go_max_rk x 0) as [[E _]|[[E _]|(_ & _ & _ & R)]];
    change (Prim2SF 0) with (S754_zero false) in *.
  - right; right. rewrite E. cbn [rk]. lra.
  - right; left. exact E.
  - right; right. rewrite R. cbn [rk]. unfold Rmax. destruct Rle_dec; lra.
Qed.

(** The rate is never above what the portion of the whole capacity
    gives, or the minimum when that is larger. *)
Lemma specRate_upper_ratio cap u1 u2 prev ratio m :
  (ratio / 100 <? 0) = false ->
  (go_max (cap * (ratio / 100)) m <? specRate cap u1 u2 prev ratio m) = false.
Proof.
  intros Hr. unfold specRate. apply go_max_not_above.
  apply fle_mul; [|exact Hr].
  assert (H : fle (cap - go_max (u1 - prev) 0 - go_max (u2 - cap) 0)
                 (cap - 0 - 0)).
  { apply fle_sub; [apply fle_sub; [apply fle_refl|]|]; apply fle_zero_max0. }
  rewrite !sub_zero_r in H. exact H.
Qed.

Lemma specRate_upper cap u1 u2 prev ratio m :
  (ratio <? 0) = false ->
  (go_max (cap * (ratio / 100)) m <? specRate cap u1 u2 prev ratio m) = false.
Proof. intros Hr. apply specRate_upper_ratio, div100_nonneg, Hr. Qed.

(** The difference of two finite numbers in order is a number that is
    not positive. *)
Lemma sub_nonpos x y :
  is_finite x = true -> is_finite y = true -> (x <=? y) = true ->
  Prim2SF (x - y) <> S754_nan /\ (rk (Prim2SF (x - y)) <= 0)%R.
Proof.
  intros Fx Fy H. apply is_finite_sf in Fx, Fy.
  rewrite FloatAxioms.leb_spec in H.
  apply SFleb_rk in H as (_ & _ & H); try apply Prim2SF_valid64.
  pose proof (Prim2SF_valid64 (x - y)) as V.
  rewrite FloatAxioms.sub_spec in *.
  pose proof (SFsub_Rounds _ _ Fx Fy (Prim2SF_valid64 x) (Prim2SF_valid64 y)) as R.
  split; [apply (Rounds_not_nan _ _ R V)|].
  change 0%R with (rk (S754_zero false)).
  apply (Rounds_mono _ _ 0 _ R); try assumption; try reflexivity; [|lra].
  left. repeat split. discriminate.
Qed.

(** [math.Max(a, 0)] is [+0] for every number [a] that is not positive. *)
Lemma go_max0_nonpos a :
  Prim2SF a <> S754_nan -> (rk (Prim2SF a) <= 0)%R -> go_max a 0 = 0.
Proof.
  intros N H. pose proof (bpow_pos 1024) as B.
  pose proof (Prim2SF_valid64 a) as V.
  destruct (Prim2SF a) as [s|s| |s m e] eqn:E; [| | contradiction|].
  - assert (Ea : a = 0 \/ a = neg_zero).
    { destruct s; [right|left]; apply Prim2SF_inj; rewrite E; reflexivity. }
    destruct Ea as [-> | ->]; reflexivity.
  - destruct s; cbn [rk] in H; [|lra].
    unfold go_max, isPosInf, is_nan.
    rewrite !FloatAxioms.eqb_spec, FloatAxioms.ltb_spec, E.
    reflexivity.
  - apply finite_value_bounds in V. destruct s; cbn [rk] in H; [|lra].
    unfold go_max, isPosInf, is_nan.
    rewrite !FloatAxioms.eqb_spec, FloatAxioms.ltb_spec, E.
    change (Prim2SF infinity) with (S754_infinity false).
    change (Prim2SF 0) with (S754_zero false).
    unfold SFeqb, SFltb. cbn [SFcompare].
    rewrite Z.compare_refl. change (Pos.compare_cont Eq m m) with (m ?= m)%positive.
    rewrite Pos.compare_refl. reflexivity.
Qed.

(** A broker whose traffic is within the previous rate and within the
    capacity gets the portion of the whole capacity. *)
Lemma specRate_idle cap u1 u2 prev ratio m :
  is_finite cap = true -> is_finite u1 = true -> is_finite u2 = true ->
  is_finite prev = true ->
  (u1 <=? prev) = true -> (u2 <=? cap) = true ->
  specRate cap u1 u2 prev ratio m = go_max (cap * (ratio / 100)) m.
Proof.
  intros Fc F1 F2 Fp H1 H2. unfold specRate.
  destruct (sub_nonpos u1 prev F1 Fp H1) as [N1 R1].
  destruct (sub_nonpos u2 cap F2 Fc H2) as [N2 R2].
  rewrite (go_max0_nonpos _ N1 R1), (go_max0_nonpos _ N2 R2).
  rewrite !sub_zero_r. reflexivity.
Qed.

Lemma SFltb_rk a b :
  valid64 a -> valid64 b -> SFltb a b = true ->
  a <> S754_nan /\ b <> S754_nan /\ (rk a < rk b)%R.
Proof.
  intros Va Vb H. unfold SFltb in H.
  assert (Na : a <> S754_nan) by (intros ->; discriminate).
  assert (Nb : b <> S754_nan) by (intros ->; destruct a; discriminate).
  pose proof (SFcompare_rk a b Va Vb Na Nb) as C.
  destruct (SFcompare a b) as [[]|]; try discriminate; repeat split; auto.
Qed.

(** A finite number less what is at least as large is not positive. *)
Lemma SFsub_le_nonpos a b :
  is_fin a = true -> valid64 a -> valid64 b -> valid64 (SF64sub a b) ->
  b <> S754_nan -> (rk a <= rk b)%R ->
  SF64sub a b <> S754_nan /\ (rk (SF64sub a b) <= 0)%R.
Proof.
  intros Fa Va Vb V Nb H. pose proof (bpow_pos 1024) as B.
  destruct (fin_strict a Fa Va) as [_ Ba].
  destruct (class b) as [->|[->|[->|Fb]]]; [contradiction| | |].
  - cbn [rk] in H. lra.
  - destruct a as [s|s| |s m e]; try discriminate; cbn [SF64sub SFsub negb];
      (split; [discriminate|]); cbn [rk]; lra.
  - split; [apply SFsub_fin_not_nan; assumption|].
    change 0%R with (rk (S754_zero false)).
    apply (Rounds_mono (rk a - rk b) _ 0 _); try assumption; try reflexivity.
    + apply SFsub_Rounds; assumption.
    + left. repeat split. discriminate.
    + lra.
Qed.

(** What is not positive stays so when what is not negative is taken
    away. *)
Lemma SFsub_nonpos_nonneg a b :
  valid64 a -> valid64 b -> valid64 (SF64sub a b) ->
  a <> S754_nan -> b <> S754_nan -> (rk a <= 0)%R -> (0 <= rk b)%R ->
  SF64sub a b <> S754_nan /\ (rk (SF64sub a b) <= 0)%R.
Proof.
  intros Va Vb V Na Nb Ha Hb. pose proof (bpow_pos 1024) as B.
  destruct (class a) as [->|[->|[->|Fa]]]; [contradiction| | |].
  - destruct b as [s|[|]| |s m e]; try contradiction; cbn [rk] in Hb;
      try (exfalso; lra); cbn [SF64sub SFsub negb Bool.eqb];
      (split; [discriminate|]); cbn [rk]; lra.
  - cbn [rk] in Ha. lra.
  - apply SFsub_le_nonpos; try assumption. lra.
Qed.

(** What is not positive stays so when scaled by a positive finite
    number. *)
Lemma SFmul_nonpos_pos a r :
  valid64 a -> valid64 r -> valid64 (SF64mul a r) ->
  a <> S754_nan -> (rk a <= 0)%R -> is_fin r = true -> (0 < rk r)%R ->
  SF64mul a r <> S754_nan /\ (rk (SF64mul a r) <= 0)%R.
Proof.
  intros Va Vr V Na Ha Fr Hr. pose proof (bpow_pos 1024) as B.
  destruct (class a) as [->|[->|[->|Fa]]]; [contradiction| | |].
  - destruct r as [s|s| |[|] m e]; cbn [is_fin rk] in *;
      try discriminate; try (exfalso; lra).
    + pose proof (finite_value_bounds _ _ _ Vr). cbn [rk] in Hr. exfalso. lra.
    + cbn [SF64mul SFmul xorb]. split; [discriminate|]. cbn [rk]. lra.
  - cbn [rk] in Ha. lra.
  - split; [apply SFmul_pos_not_nan; assumption|].
    change 0%R with (rk (S754_zero false)).
    apply (Rounds_mono (rk a * rk r) _ 0 _); try assumption; try reflexivity.
    + apply SFmul_Rounds; assumption.
    + left. repeat split. discriminate.
    + nra.
Qed.

(** [math.Max(x, y)] is [y] for a number [x] that is not positive and a
    positive [y]. *)
Lemma go_max_below x y :
  Prim2SF x <> S754_nan -> (rk (Prim2SF x) <= 0)%R -> (0 <? y) = true ->
  go_max x y = y.
Proof.
  intros Nx Hx Hy. pose proof (bpow_pos 1024) as B.
  rewrite FloatAxioms.ltb_spec in Hy.
  apply SFltb_rk in Hy as (_ & Ny & Hy); try apply Prim2SF_valid64.
  change (Prim2SF 0) with (S754_zero false) in Hy. cbn [rk] in Hy.
  unfold go_max.
  assert (Ix : isPosInf x = false).
  { destruct (isPosInf x) eqn:I; [|reflexivity].
    apply isPosInf_sf in I. rewrite I in Hx. cbn [rk] in Hx. lra. }
  rewrite Ix. cbn [orb].
  destruct (isPosInf y) eqn:Iy.
  - apply Prim2SF_inj. apply isPosInf_sf in Iy. rewrite Iy. reflexivity.
  - apply not_nan_spec in Nx, Ny. rewrite Nx, Ny. cbn [orb].
    assert (E : (x =? y) = false).
    { destruct (x =? y) eqn:E; [|reflexivity].
      rewrite FloatAxioms.eqb_spec in E.
      apply SFeqb_rk in E as (_ & _ & E); try apply Prim2SF_valid64. lra. }
    rewrite E, andb_false_r.
    assert (L : (y <? x) = false) by (apply ltb_false_iff; right; right; lra).
    rewrite L. reflexivity.
Qed.

(** [math.Max(a, 0)] of a number is a number, not negative and not
    below [a]. *)
Lemma go_max0_above a :
  Prim2SF a <> S754_nan ->
  Prim2SF (go_max a 0) <> S754_nan /\ (0 <= rk (Prim2SF (go_max a 0)))%R /\
  (rk (Prim2SF a) <= rk (Prim2SF (go_max a 0)))%R.
Proof.
  intros Na. pose proof (bpow_pos 1024) as B.
  destruct (go_max_rk a 0) as [[E _]|[[_ [N|N]]|(_ & _ & N & R)]];
    change (Prim2SF 0) with (S754_zero false) in *;
    try contradiction; try discriminate.
  - rewrite E. split; [discriminate|]. cbn [rk]. split; [lra|].
    apply rk_bounds, Prim2SF_valid64.
  - split; [exact N|]. rewrite R. cbn [rk]. unfold Rmax.
    destruct Rle_dec; lra.
Qed.

(** Once the traffic that the throttle does not account for reaches the
    capacity, the rate is the minimum. *)
Lemma specRate_saturated cap u1 u2 prev ratio m :
  finiteInputs cap u1 u2 prev ratio m -> (0 <? m) = true ->
  (cap <=? u1 - prev) = true ->
  specRate cap u1 u2 prev ratio m = m.
Proof.
  intros (Fc & F1 & F2 & Fp & Fr & Hr & Nm) Hm Hs. unfold specRate.
  apply is_finite_sf in Fc, F1, F2, Fp, Fr.
  rewrite FloatAxioms.leb_spec in Hs.
  apply SFleb_rk in Hs as (_ & NA & Hs); try apply Prim2SF_valid64.
  assert (NB : Prim2SF (u2 - cap) <> S754_nan).
  { rewrite FloatAxioms.sub_spec.
    apply SFsub_fin_not_nan; try assumption; try apply Prim2SF_valid64.
    rewrite <- FloatAxioms.sub_spec. apply Prim2SF_valid64. }
  destruct (go_max0_above _ NA) as (NA' & PA & GA).
  destruct (go_max0_above _ NB) as (NB' & PB & _).
  set (A := go_max (u1 - prev) 0) in *. set (B := go_max (u2 - cap) 0) in *.
  assert (HC : Prim2SF (cap - A) <> S754_nan /\
               (rk (Prim2SF (cap - A)) <= 0)%R).
  { rewrite FloatAxioms.sub_spec.
    apply SFsub_le_nonpos; try assumption; try apply Prim2SF_valid64; [|lra].
    rewrite <- FloatAxioms.sub_spec. apply Prim2SF_valid64. }
  destruct HC as [NC UC].
  assert (HD : Prim2SF (cap - A - B) <> S754_nan /\
               (rk (Prim2SF (cap - A - B)) <= 0)%R).
  { rewrite FloatAxioms.sub_spec.
    apply SFsub_nonpos_nonneg; try assumption; try apply Prim2SF_valid64.
    rewrite <- FloatAxioms.sub_spec. apply Prim2SF_valid64. }
  destruct HD as [ND UD].
  assert (HP : Prim2SF ((cap - A - B) * (ratio / 100)) <> S754_nan /\
               (rk (Prim2SF ((cap - A - B) * (ratio / 100))) <= 0)%R).
  { rewrite FloatAxioms.mul_spec.
    apply SFmul_nonpos_pos; try assumption; try apply Prim2SF_valid64.
    - rewrite <- FloatAxioms.mul_spec. apply Prim2SF_valid64.
    - rewrite FloatAxioms.ltb_spec in Hr.
      apply SFltb_rk in Hr as (_ & _ & Hr); try apply Prim2SF_valid64.
      exact Hr. }
  destruct HP as [NP UP].
  apply go_max_below; assumption.
Qed.

(** On finite inputs the bound of [specRate_upper] is a number, and the
    rate is at most the bound. *)
Lemma specRate_upper_finite cap u1 u2 prev ratio m :
  finiteInputs cap u1 u2 prev ratio m ->
  (specRate cap u1 u2 prev ratio m <=? go_max (cap * (ratio / 100)) m) = true.
Proof.
  intros F. pose proof F as (Fc & F1 & F2 & Fp & Fr & Hr & Nm).
  assert (Hn : (ratio / 100 <? 0) = false).
  { apply ltb_false_iff. right; right.
    rewrite FloatAxioms.ltb_spec in Hr.
    apply SFltb_rk in Hr as (_ & _ & Hr); try apply Prim2SF_valid64. lra. }
  apply not_ltb_leb.
  - apply go_max_number; [|exact Nm]. apply not_nan_spec.
    apply is_finite_sf in Fc, Fr. rewrite FloatAxioms.mul_spec.
    apply (Rounds_not_nan (rk (Prim2SF cap) * rk (Prim2SF (ratio / 100)))).
    + apply SFmul_Rounds; try assumption; apply Prim2SF_valid64.
    + rewrite <- FloatAxioms.mul_spec. apply Prim2SF_valid64.
  - apply specRate_number; assumption.
  - apply specRate_upper_ratio. exact Hn.
Qed.

(** Where a comparison fails: on a NaN, or where the opposite strict
    comparison holds. *)
Lemma SFcompare_nan_r x : SFcompare x S754_nan = None.
Proof. destruct x; reflexivity. Qed.

Lemma SFleb_false_iff x y :
  SFleb x y = false <-> x = S754_nan \/ y = S754_nan \/ SFltb y x = true.
Proof.
  unfold SFleb, SFltb.
  destruct (class x) as [->|Hx]; [cbn; tauto|].
  destruct (class y) as [->|Hy]; [rewrite SFcompare_nan_r; tauto|].
  assert (Nx : x <> S754_nan) by (intros ->; intuition discriminate).
  assert (Ny : y <> S754_nan) by (intros ->; intuition discriminate).
  rewrite (SFcompare_antisym x y).
  destruct (SFcompare_some x y Nx Ny) as [c ->].
  destruct c; cbn; split; try tauto; try congruence;
    intros [?|[?|?]]; congruence.
Qed.

Lemma SFltb_false_leb x y :
  SFltb x y = false <-> x = S754_nan \/ y = S754_nan \/ SFleb y x = true.
Proof.
  unfold SFleb, SFltb.
  destruct (class x) as [->|Hx]; [cbn; tauto|].
  destruct (class y) as [->|Hy]; [rewrite SFcompare_nan_r; tauto|].
  assert (Nx : x <> S754_nan) by (intros ->; intuition discriminate).
  assert (Ny : y <> S754_nan) by (intros ->; intuition discriminate).
  rewrite (SFcompare_antisym x y).
  destruct (SFcompare_some x y Nx Ny) as [c ->].
  destruct c; cbn; split; try tauto; try congruence;
    intros [?|[?|?]]; congruence.
Qed.

Lemma leb_false_iff a b :
  (a <=? b) = false <->
  is_nan a = true \/ is_nan b = true \/ (b <? a) = true.
Proof.
  rewrite !is_nan_spec, FloatAxioms.ltb_spec, FloatAxioms.leb_spec.
  apply SFleb_false_iff.
Qed.

Lemma ltb_false_leb a b :
  (a <? b) = false <->
  is_nan a = true \/ is_nan b = true \/ (b <=? a) = true.
Proof.
  rewrite !is_nan_spec, FloatAxioms.ltb_spec, FloatAxioms.leb_spec.
  apply SFltb_false_leb.
Qed.
End MoreFloats.

(** ** Further properties of the limits engine *)

Section LimitsProperties.
Local Open Scope float_scope.
Implicit Types (l : Limits) (b : Broker) (t prev cap : float).

(** X1: for a broker of known instance type, the rate that
    [replicationHeadroom] returns does not increase when the utilizations
    increase and the previous rate decreases together: for the leader
    role in the outbound utilization, for the follower role in the
    outbound and the inbound one, provided the role's portion ([srcMax],
    [dstMax]) is not negative. The later rate is less than or equal to
    the earlier one whenever both are numbers. All arithmetic is
    binary64, rounding included. *)
Theorem replication_rates_monotone l b1 b2 t1 t2 cap :
  InstanceType b1 = InstanceType b2 →
  l !! InstanceType b1 = Some cap →
  (NetTX b1 <=? NetTX b2) = true →
  (t2 <=? t1) = true →
  ((idx l "srcMax" <? 0) = false →
   ∃ r1 r2,
     replicationHeadroom l (Some b1) "leader" t1 = Returns (r1, None) ∧
     replicationHeadroom l (Some b2) "leader" t2 = Returns (r2, None) ∧
     (r1 <? r2) = false ∧
     (is_nan r1 = false → is_nan r2 = false → (r2 <=? r1) = true)) ∧
  ((idx l "dstMax" <? 0) = false → (NetRX b1 <=? NetRX b2) = true →
   ∃ r1 r2,
     replicationHeadroom l (Some b1) "follower" t1 = Returns (r1, None) ∧
     replicationHeadroom l (Some b2) "follower" t2 = Returns (r2, None) ∧
     (r1 <? r2) = false ∧
     (is_nan r1 = false → is_nan r2 = false → (r2 <=? r1) = true)).
Proof.
  intros Hty H1 Htx Ht.
  assert (H2 : l !! InstanceType b2 = Some cap) by (rewrite <- Hty; exact H1).
  apply leb_fle in Htx, Ht.
  split.
  - intros Hr.
    rewrite (replicationHeadroom_leader _ _ _ _ H1),
      (replicationHeadroom_leader _ _ _ _ H2).
    do 2 eexists. do 2 (split; [reflexivity|]).
    assert (L : (specRate cap (NetTX b1) (NetTX b1) t1
                   (idx l "srcMax") (idx l "minimum")
                 <? specRate cap (NetTX b2) (NetTX b2) t2
                      (idx l "srcMax") (idx l "minimum")) = false)
      by (apply specRate_monotone; assumption).
    split; [exact L|]. intros N1 N2. apply not_ltb_leb; assumption.
  - intros Hr Hrx. apply leb_fle in Hrx.
    rewrite (replicationHeadroom_follower _ _ _ _ H1),
      (replicationHeadroom_follower _ _ _ _ H2).
    do 2 eexists. do 2 (split; [reflexivity|]).
    assert (L : (specRate cap (NetTX b1) (NetRX b1) t1
                   (idx l "dstMax") (idx l "minimum")
                 <? specRate cap (NetTX b2) (NetRX b2) t2
                      (idx l "dstMax") (idx l "minimum")) = false)
      by (apply specRate_monotone; assumption).
    split; [exact L|]. intros N1 N2. apply not_ltb_leb; assumption.
Qed.

Lemma replication_rates_monotone_witness :
  ((idx defaultLimits "srcMax" <? 0) = false →
   ∃ r1 r2,
     replicationHeadroom defaultLimits (Some (mkBroker "d2.2xlarge" 80 30))
       "leader" 60 = Returns (r1, None) ∧
     replicationHeadroom defaultLimits (Some (mkBroker "d2.2xlarge" 100 40))
       "leader" 50 = Returns (r2, None) ∧
     (r1 <? r2) = false ∧
     (is_nan r1 = false → is_nan r2 = false → (r2 <=? r1) = true)) ∧
  ((idx defaultLimits "dstMax" <? 0) = false →
   (NetRX (mkBroker "d2.2xlarge" 80 30)
    <=? NetRX (mkBroker "d2.2xlarge" 100 40)) = true →
   ∃ r1 r2,
     replicationHeadroom defaultLimits (Some (mkBroker "d2.2xlarge" 80 30))
       "follower" 60 = Returns (r1, None) ∧
     replicationHeadroom defaultLimits (Some (mkBroker "d2.2xlarge" 100 40))
       "follower" 50 = Returns (r2, None) ∧
     (r1 <? r2) = false ∧
     (is_nan r1 = false → is_nan r2 = false → (r2 <=? r1) = true)).
Proof.
  apply (replication_rates_monotone defaultLimits
           (mkBroker "d2.2xlarge" 80 30) (mkBroker "d2.2xlarge" 100 40)
           60 50 120).
  - reflexivity.
  - vm_compute. reflexivity.
  - vm_compute. reflexivity.
  - vm_compute. reflexivity.
Defined.

(** The rates of the witness: 90 before, 72 and then 63 after. *)
Example replication_rates_values :
  replicationHeadroom defaultLimits (Some (mkBroker "d2.2xlarge" 80 30))
    "leader" 60 = Returns (90, None) ∧
  replicationHeadroom defaultLimits (Some (mkBroker "d2.2xlarge" 100 40))
    "leader" 50 = Returns (63, None) ∧
  replicationHeadroom defaultLimits (Some (mkBroker "d2.2xlarge" 100 40))
    "follower" 50 = Returns (63, None).
Proof. vm_compute. repeat split. Qed.

(** X2: for a broker of known instance type and a portion that is not
    negative, the rate of [headroom] and of [replicationHeadroom] is
    never above the larger of the minimum and the portion of the whole
    capacity, [capacity * (portion / 100)]: no utilization and no
    previous rate push it higher. On finite inputs the rate is less than
    or equal to this bound. *)
Theorem rate_at_most_portion_of_capacity l b t cap :
  l !! InstanceType b = Some cap →
  let bound := λ portion : string,
    go_max (cap * (idx l portion / 100)) (idx l "minimum") in
  (∃ r, headroom l (Some b) t = (r, None) ∧
        ((idx l "maximum" <? 0) = false → (bound "maximum" <? r) = false) ∧
        (finiteInputs cap (NetTX b) (NetTX b) t
           (idx l "maximum") (idx l "minimum") →
         (r <=? bound "maximum") = true)) ∧
  (∃ r, replicationHeadroom l (Some b) "leader" t = Returns (r, None) ∧
        ((idx l "srcMax" <? 0) = false → (bound "srcMax" <? r) = false) ∧
        (finiteInputs cap (NetTX b) (NetTX b) t
           (idx l "srcMax") (idx l "minimum") →
         (r <=? bound "srcMax") = true)) ∧
  (∃ r, replicationHeadroom l (Some b) "follower" t = Returns (r, None) ∧
        ((idx l "dstMax" <? 0) = false → (bound "dstMax" <? r) = false) ∧
        (finiteInputs cap (NetTX b) (NetRX b) t
           (idx l "dstMax") (idx l "minimum") →
         (r <=? bound "dstMax") = true)).
Proof.
  intros H bound. unfold bound.
  rewrite (headroom_known _ _ _ _ H), (replicationHeadroom_leader _ _ _ _ H),
    (replicationHeadroom_follower _ _ _ _ H).
  repeat split; eexists; (split; [reflexivity|]);
    (split; [apply specRate_upper|apply specRate_upper_finite]).
Qed.

Lemma rate_at_most_portion_of_capacity_witness :
  let bound := λ portion : string,
    go_max (120 * (idx defaultLimits portion / 100))
           (idx defaultLimits "minimum") in
  (∃ r, headroom defaultLimits (Some (mkBroker "d2.2xlarge" 80 30)) 60
        = (r, None) ∧
        ((idx defaultLimits "maximum" <? 0) = false →
         (bound "maximum" <? r) = false) ∧
        (finiteInputs 120 80 80 60
           (idx defaultLimits "maximum") (idx defaultLimits "minimum") →
         (r <=? bound "maximum") = true)) ∧
  (∃ r, replicationHeadroom defaultLimits
          (Some (mkBroker "d2.2xlarge" 80 30)) "leader" 60
        = Returns (r, None) ∧
        ((idx defaultLimits "srcMax" <? 0) = false →
         (bound "srcMax" <? r) = false) ∧
        (finiteInputs 120 80 80 60
           (idx defaultLimits "srcMax") (idx defaultLimits "minimum") →
         (r <=? bound "srcMax") = true)) ∧
  (∃ r, replicationHeadroom defaultLimits
          (Some (mkBroker "d2.2xlarge" 80 30)) "follower" 60
        = Returns (r, None) ∧
        ((idx defaultLimits "dstMax" <? 0) = false →
         (bound "dstMax" <? r) = false) ∧
        (finiteInputs 120 80 30 60
           (idx defaultLimits "dstMax") (idx defaultLimits "minimum") →
         (r <=? bound "dstMax") = true)).
Proof.
  apply (rate_at_most_portion_of_capacity defaultLimits
           (mkBroker "d2.2xlarge" 80 30) 60 120).
  vm_compute. reflexivity.
Defined.

(** X3: a broker of known instance type whose outbound utilization is
    within the previous rate and within the capacity, all three finite,
    gets from [headroom] and from [replicationHeadroom] as leader exactly
    the larger of the minimum and the portion of the whole capacity; as
    follower it gets the same as soon as the outbound utilization is
    within the previous rate and the inbound one within the capacity. *)
Theorem idle_broker_rate l b t cap :
  l !! InstanceType b = Some cap →
  is_finite cap = true → is_finite (NetTX b) = true → is_finite t = true →
  (NetTX b <=? t) = true →
  ((NetTX b <=? cap) = true →
   headroom l (Some b) t =
     (go_max (cap * (idx l "maximum" / 100)) (idx l "minimum"), None) ∧
   replicationHeadroom l (Some b) "leader" t =
     Returns (go_max (cap * (idx l "srcMax" / 100)) (idx l "minimum"), None)) ∧
  (is_finite (NetRX b) = true → (NetRX b <=? cap) = true →
   replicationHeadroom l (Some b) "follower" t =
     Returns (go_max (cap * (idx l "dstMax" / 100)) (idx l "minimum"), None)).
Proof.
  intros H Fc Fu Ft Hu.
  rewrite (headroom_known _ _ _ _ H), (replicationHeadroom_leader _ _ _ _ H),
    (replicationHeadroom_follower _ _ _ _ H).
  split.
  - intros Hc. rewrite !specRate_idle by assumption. split; reflexivity.
  - intros Fr Hc. rewrite specRate_idle by assumption. reflexivity.
Qed.

Lemma idle_broker_rate_witness :
  ((NetTX (mkBroker "d2.2xlarge" 40 30) <=? 120) = true →
   headroom defaultLimits (Some (mkBroker "d2.2xlarge" 40 30)) 50 =
     (go_max (120 * (idx defaultLimits "maximum" / 100))
             (idx defaultLimits "minimum"), None) ∧
   replicationHeadroom defaultLimits (Some (mkBroker "d2.2xlarge" 40 30))
     "leader" 50 =
     Returns (go_max (120 * (idx defaultLimits "srcMax" / 100))
                     (idx defaultLimits "minimum"), None)) ∧
  (is_finite (NetRX (mkBroker "d2.2xlarge" 40 30)) = true →
   (NetRX (mkBroker "d2.2xlarge" 40 30) <=? 120) = true →
   replicationHeadroom defaultLimits (Some (mkBroker "d2.2xlarge" 40 30))
     "follower" 50 =
     Returns (go_max (120 * (idx defaultLimits "dstMax" / 100))
                     (idx defaultLimits "minimum"), None)).
Proof.
  apply (idle_broker_rate defaultLimits (mkBroker "d2.2xlarge" 40 30) 50 120);
    vm_compute; reflexivity.
Defined.

(** The rate of the witness is 108, nine tenths of 120. *)
Example idle_rate_is_108 :
  headroom defaultLimits (Some (mkBroker "d2.2xlarge" 40 30)) 50
  = (108, None).
Proof. vm_compute. reflexivity. Qed.

(** X4: for a broker of known instance type, once the outbound
    utilization less the previous rate (the traffic the throttle does not
    account for) is at least the capacity, [headroom] and
    [replicationHeadroom], in both roles, return exactly the minimum, on
    finite inputs and for a positive minimum. For the follower this holds
    whatever the inbound utilization is. *)
Theorem saturated_broker_rate l b t cap :
  l !! InstanceType b = Some cap →
  (0 <? idx l "minimum") = true →
  (cap <=? NetTX b - t) = true →
  (finiteInputs cap (NetTX b) (NetTX b) t (idx l "maximum") (idx l "minimum") →
   headroom l (Some b) t = (idx l "minimum", None)) ∧
  (finiteInputs cap (NetTX b) (NetTX b) t (idx l "srcMax") (idx l "minimum") →
   replicationHeadroom l (Some b) "leader" t
   = Returns (idx l "minimum", None)) ∧
  (finiteInputs cap (NetTX b) (NetRX b) t (idx l "dstMax") (idx l "minimum") →
   replicationHeadroom l (Some b) "follower" t
   = Returns (idx l "minimum", None)).
Proof.
  intros H Hm Hs.
  rewrite (headroom_known _ _ _ _ H), (replicationHeadroom_leader _ _ _ _ H),
    (replicationHeadroom_follower _ _ _ _ H).
  repeat split; intros F; rewrite specRate_saturated by assumption;
    reflexivity.
Qed.

Lemma saturated_broker_rate_witness :
  (finiteInputs 120 200 200 50
     (idx defaultLimits "maximum") (idx defaultLimits "minimum") →
   headroom defaultLimits (Some (mkBroker "d2.2xlarge" 200 0)) 50
   = (idx defaultLimits "minimum", None)) ∧
  (finiteInputs 120 200 200 50
     (idx defaultLimits "srcMax") (idx defaultLimits "minimum") →
   replicationHeadroom defaultLimits (Some (mkBroker "d2.2xlarge" 200 0))
     "leader" 50 = Returns (idx defaultLimits "minimum", None)) ∧
  (finiteInputs 120 200 0 50
     (idx defaultLimits "dstMax") (idx defaultLimits "minimum") →
   replicationHeadroom defaultLimits (Some (mkBroker "d2.2xlarge" 200 0))
     "follower" 50 = Returns (idx defaultLimits "minimum", None)).
Proof.
  apply (saturated_broker_rate defaultLimits
           (mkBroker "d2.2xlarge" 200 0) 50 120); vm_compute; reflexivity.
Defined.

(** The inputs of the witness are finite. *)
Example saturated_inputs_finite :
  finiteInputs 120 200 0 50
    (idx defaultLimits "dstMax") (idx defaultLimits "minimum") ∧
  finiteInputs 120 200 200 50
    (idx defaultLimits "maximum") (idx defaultLimits "minimum").
Proof. vm_compute. repeat split. Qed.

(** X8: [replicationHeadroom] panics exactly on a nil broker with the
    leader or the follower role; on every broker that is not nil, and on
    every other role, it returns. *)
Theorem replicationHeadroom_panics_iff l (ob : option Broker)
    (rt : replicaType) t :
  (∃ msg, replicationHeadroom l ob rt t = Panics msg) ↔
  ob = None ∧ (rt = "leader"%string ∨ rt = "follower"%string).
Proof.
  unfold replicationHeadroom.
  destruct (String.eqb rt "leader") eqn:E1;
    [apply String.eqb_eq in E1|apply String.eqb_neq in E1;
     destruct (String.eqb rt "follower") eqn:E2;
     [apply String.eqb_eq in E2|apply String.eqb_neq in E2]].
  - destruct ob as [b|].
    + destruct (l !! InstanceType b); split;
        [intros [? ?]; discriminate|intros [? _]; discriminate
        |intros [? ?]; discriminate|intros [? _]; discriminate].
    + split; eauto.
  - destruct ob as [b|].
    + destruct (l !! InstanceType b); split;
        [intros [? ?]; discriminate|intros [? _]; discriminate
        |intros [? ?]; discriminate|intros [? _]; discriminate].
    + split; eauto.
  - split; [intros [? ?]; discriminate|intros [_ [?|?]]; contradiction].
Qed.

(** X9: on a [Limits] whose [srcMax] and [maximum] entries agree,
    [replicationHeadroom] with the leader role returns, for every broker
    that is not nil, what [headroom] returns, rate and error alike. *)
Theorem leader_agrees_with_headroom l b t :
  idx l "srcMax" = idx l "maximum" →
  replicationHeadroom l (Some b) "leader" t = Returns (headroom l (Some b) t).
Proof.
  intros E. unfold replicationHeadroom, headroom. simpl. rewrite E.
  destruct (l !! InstanceType b); reflexivity.
Qed.

Lemma leader_agrees_with_headroom_witness :
  replicationHeadroom defaultLimits (Some (mkBroker "d2.2xlarge" 80 30))
    "leader" 60
  = Returns (headroom defaultLimits (Some (mkBroker "d2.2xlarge" 80 30)) 60).
Proof.
  apply (leader_agrees_with_headroom defaultLimits
           (mkBroker "d2.2xlarge" 80 30) 60).
  vm_compute. reflexivity.
Defined.
End LimitsProperties.

(** ** Further properties of [NewLimits] *)

Section NewLimitsProperties.
Local Open Scope float_scope.

(** What the checks of [NewLimits] let through, read on the values: a
    minimum that is positive, a portion that is positive and at most 100,
    and in both places a NaN, on which every comparison is false. *)
Definition passesMinimum (x : float) : Prop :=
  is_nan x = true ∨ (0 <? x) = true.

Definition passesPortion (x : float) : Prop :=
  is_nan x = true ∨ ((0 <? x) = true ∧ (x <=? 100) = true).

Lemma passesMinimum_spec x : passesMinimum x ↔ (x <=? 0) = false.
Proof.
  unfold passesMinimum. rewrite leb_false_iff.
  change (is_nan 0) with false. intuition congruence.
Qed.

Lemma passesPortion_spec x :
  passesPortion x ↔ (x <=? 0) = false ∧ (100 <? x) = false.
Proof.
  unfold passesPortion. rewrite leb_false_iff, ltb_false_leb.
  change (is_nan 0) with false. change (is_nan 100) with false.
  intuition congruence.
Qed.

Lemma NewLimits_Some c lim :
  NewLimits c = (Some lim, None) →
  lim = mergeCapacity (scalarLimits c) (CapacityMap c) ∧
  (Minimum c <=? 0) = false ∧
  ((Maximum c <=? 0) = false ∧ (100 <? Maximum c) = false) ∧
  ((SourceMaximum c <=? 0) = false ∧ (100 <? SourceMaximum c) = false) ∧
  ((DestinationMaximum c <=? 0) = false ∧
   (100 <? DestinationMaximum c) = false).
Proof.
  unfold NewLimits.
  destruct (Minimum c <=? 0); [discriminate|].
  destruct (Maximum c <=? 0); [discriminate|].
  destruct (100 <? Maximum c); [discriminate|].
  destruct (SourceMaximum c <=? 0); [discriminate|].
  destruct (100 <? SourceMaximum c); [discriminate|].
  destruct (DestinationMaximum c <=? 0); [discriminate|].
  destruct (100 <? DestinationMaximum c); [discriminate|].
  simpl. intros [= <-]. repeat split.
Qed.

(** X5: [NewLimits] returns a [Limits] exactly when the minimum is
    positive or NaN and each of the three portions is positive and at
    most 100, or NaN: a NaN passes every check, since the checks reject
    by comparisons and a comparison with NaN is false. *)
Theorem NewLimits_accepts_iff c :
  (∃ lim, NewLimits c = (Some lim, None)) ↔
  passesMinimum (Minimum c) ∧ passesPortion (Maximum c) ∧
  passesPortion (SourceMaximum c) ∧ passesPortion (DestinationMaximum c).
Proof.
  rewrite passesMinimum_spec, !passesPortion_spec. split.
  - intros [lim H]. apply NewLimits_Some in H. tauto.
  - intros (H0 & [H1 H2] & [H3 H4] & [H5 H6]). unfold NewLimits.
    rewrite H0, H1, H2, H3, H4, H5, H6. simpl. eauto.
Qed.

(** A configuration of NaNs is accepted, and the rate it gives is NaN. *)
Example NewLimits_all_nan :
  ∃ lim,
    NewLimits {| Minimum := nan; Maximum := nan; SourceMaximum := nan;
                 DestinationMaximum := nan;
                 CapacityMap := <["d2.2xlarge" := 120]> ∅ |}
    = (Some lim, None) ∧
    headroom lim (Some (mkBroker "d2.2xlarge" 80 30)) 60 = (nan, None).
Proof. eexists. vm_compute. split; reflexivity. Qed.

Lemma scalarLimits_lookup_None c (k : string) :
  scalarLimits c !! k = None ↔
  k ≠ "minimum"%string ∧ k ≠ "maximum"%string ∧ k ≠ "srcMax"%string ∧
  k ≠ "dstMax"%string.
Proof.
  unfold scalarLimits. rewrite !lookup_insert_None, lookup_empty.
  intuition congruence.
Qed.

(** X6: on the [Limits] that [NewLimits] returns, [headroom] reports an
    unknown instance type, with the [minimum] entry as the rate, exactly
    for the brokers whose instance type is neither a key of the capacity
    map nor one of the four names [minimum], [maximum], [srcMax] and
    [dstMax]: a broker whose instance type is one of these names is taken
    as known, the scalar stored under the name being its capacity. *)
Theorem NewLimits_known_instance_types c (lim : Limits) (b : Broker) t :
  NewLimits c = (Some lim, None) →
  (headroom lim (Some b) t
   = (idx lim "minimum", Some "Unknown instance type"%string) ↔
   CapacityMap c !! InstanceType b = None ∧
   InstanceType b ≠ "minimum"%string ∧ InstanceType b ≠ "maximum"%string ∧
   InstanceType b ≠ "srcMax"%string ∧ InstanceType b ≠ "dstMax"%string) ∧
  (∀ v, CapacityMap c !! InstanceType b = None →
        scalarLimits c !! InstanceType b = Some v →
        headroom lim (Some b) t =
          (specRate v (NetTX b) (NetTX b) t
             (idx lim "maximum") (idx lim "minimum"), None)).
Proof.
  intros H. apply NewLimits_Some in H as [-> _].
  set (lim := mergeCapacity (scalarLimits c) (CapacityMap c)).
  assert (L : lim !! InstanceType b =
              match CapacityMap c !! InstanceType b with
              | Some v => Some v
              | None => scalarLimits c !! InstanceType b
              end) by apply mergeCapacity_lookup.
  split.
  - rewrite <- (scalarLimits_lookup_None c). unfold headroom.
    destruct (CapacityMap c !! InstanceType b) as [v|] eqn:E.
    + rewrite L. split; [discriminate|intros [? _]; discriminate].
    + rewrite L.
      destruct (scalarLimits c !! InstanceType b) as [v|].
      * split; [discriminate|intros [_ ?]; discriminate].
      * split; auto.
  - intros v E S. rewrite E, S in L. apply headroom_known, L.
Qed.

Lemma NewLimits_known_instance_types_witness :
  (headroom defaultLimits (Some (mkBroker "maximum" 80 30)) 60
   = (idx defaultLimits "minimum", Some "Unknown instance type"%string) ↔
   CapacityMap defaultConfig !! InstanceType (mkBroker "maximum" 80 30) = None ∧
   InstanceType (mkBroker "maximum" 80 30) ≠ "minimum"%string ∧
   InstanceType (mkBroker "maximum" 80 30) ≠ "maximum"%string ∧
   InstanceType (mkBroker "maximum" 80 30) ≠ "srcMax"%string ∧
   InstanceType (mkBroker "maximum" 80 30) ≠ "dstMax"%string) ∧
  (∀ v, CapacityMap defaultConfig !! InstanceType (mkBroker "maximum" 80 30)
        = None →
        scalarLimits defaultConfig !! InstanceType (mkBroker "maximum" 80 30)
        = Some v →
        headroom defaultLimits (Some (mkBroker "maximum" 80 30)) 60 =
          (specRate v 80 80 60
             (idx defaultLimits "maximum") (idx defaultLimits "minimum"),
           None)).
Proof.
  apply (NewLimits_known_instance_types defaultConfig defaultLimits
           (mkBroker "maximum" 80 30) 60).
  vm_compute. reflexivity.
Defined.

(** A broker of instance type [maximum] on the default limits: the
    portion, 90, is its capacity. *)
Example headroom_instance_type_maximum :
  headroom defaultLimits (Some (mkBroker "maximum" 80 30)) 60 = (63, None) ∧
  headroom defaultLimits (Some (mkBroker "m5.large" 80 30)) 60
  = (10, Some "Unknown instance type"%string).
Proof. vm_compute. split; reflexivity. Qed.

Lemma NewLimits_scalar c (lim : Limits) (k : string) v :
  NewLimits c = (Some lim, None) → CapacityMap c !! k = None →
  scalarLimits c !! k = Some v → idx lim k = v.
Proof.
  intros H E S. apply NewLimits_Some in H as [-> _].
  unfold idx. rewrite mergeCapacity_lookup, E, S. reflexivity.
Qed.

Lemma leb_false_not_ltb x : (x <=? 0) = false → (x <? 0) = false.
Proof.
  intros H. apply leb_false_iff in H. apply ltb_false_leb.
  destruct H as [H|[H|H]]; [auto|auto|].
  right; right.
  rewrite FloatAxioms.ltb_spec in H. rewrite FloatAxioms.leb_spec.
  unfold SFltb, SFleb in *.
  destruct (SFcompare (Prim2SF 0) (Prim2SF x)) as [[]|]; congruence.
Qed.

(** X7: on the [Limits] that [NewLimits] returns for a capacity map
    without the keys [maximum], [srcMax] and [dstMax], the validated
    portions are what the rate functions read, and so, for a broker of
    known instance type, the rate of [headroom] and of
    [replicationHeadroom] in both roles does not increase when the
    utilizations increase and the previous rate decreases. *)
Theorem NewLimits_rates_monotone c (lim : Limits) (b1 b2 : Broker)
    (t1 t2 cap : float) :
  NewLimits c = (Some lim, None) →
  CapacityMap c !! "maximum"%string = None →
  CapacityMap c !! "srcMax"%string = None →
  CapacityMap c !! "dstMax"%string = None →
  InstanceType b1 = InstanceType b2 →
  lim !! InstanceType b1 = Some cap →
  (NetTX b1 <=? NetTX b2) = true → (NetRX b1 <=? NetRX b2) = true →
  (t2 <=? t1) = true →
  (idx lim "maximum" = Maximum c ∧ idx lim "srcMax" = SourceMaximum c ∧
   idx lim "dstMax" = DestinationMaximum c) ∧
  (fst (headroom lim (Some b1) t1) <? fst (headroom lim (Some b2) t2))
  = false ∧
  (∃ r1 r2,
     replicationHeadroom lim (Some b1) "leader" t1 = Returns (r1, None) ∧
     replicationHeadroom lim (Some b2) "leader" t2 = Returns (r2, None) ∧
     (r1 <? r2) = false) ∧
  (∃ r1 r2,
     replicationHeadroom lim (Some b1) "follower" t1 = Returns (r1, None) ∧
     replicationHeadroom lim (Some b2) "follower" t2 = Returns (r2, None) ∧
     (r1 <? r2) = false).
Proof.
  intros H Em Es Ed Hty H1 Htx Hrx Ht.
  assert (H2 : lim !! InstanceType b2 = Some cap) by (rewrite <- Hty; exact H1).
  assert (Mm : idx lim "maximum" = Maximum c)
    by (apply (NewLimits_scalar c); [assumption..|reflexivity]).
  assert (Ms : idx lim "srcMax" = SourceMaximum c)
    by (apply (NewLimits_scalar c); [assumption..|reflexivity]).
  assert (Md : idx lim "dstMax" = DestinationMaximum c)
    by (apply (NewLimits_scalar c); [assumption..|reflexivity]).
  apply NewLimits_Some in H as (_ & _ & [Vm _] & [Vs _] & [Vd _]).
  apply leb_false_not_ltb in Vm, Vs, Vd.
  apply leb_fle in Htx, Hrx, Ht.
  split; [auto|].
  rewrite (headroom_known _ _ _ _ H1), (headroom_known _ _ _ _ H2),
    (replicationHeadroom_leader _ _ _ _ H1),
    (replicationHeadroom_leader _ _ _ _ H2),
    (replicationHeadroom_follower _ _ _ _ H1),
    (replicationHeadroom_follower _ _ _ _ H2).
  rewrite Mm, Ms, Md. cbn [fst].
  split; [apply specRate_monotone; assumption|].
  split; do 2 eexists; (do 2 (split; [reflexivity|]));
    apply specRate_monotone; assumption.
Qed.

Lemma NewLimits_rates_monotone_witness :
  (idx defaultLimits "maximum" = Maximum defaultConfig ∧
   idx defaultLimits "srcMax" = SourceMaximum defaultConfig ∧
   idx defaultLimits "dstMax" = DestinationMaximum defaultConfig) ∧
  (fst (headroom defaultLimits (Some (mkBroker "d2.2xlarge" 80 30)) 60)
   <? fst (headroom defaultLimits (Some (mkBroker "d2.2xlarge" 100 40)) 50))
  = false ∧
  (∃ r1 r2,
     replicationHeadroom defaultLimits (Some (mkBroker "d2.2xlarge" 80 30))
       "leader" 60 = Returns (r1, None) ∧
     replicationHeadroom defaultLimits (Some (mkBroker "d2.2xlarge" 100 40))
       "leader" 50 = Returns (r2, None) ∧
     (r1 <? r2) = false) ∧
  (∃ r1 r2,
     replicationHeadroom defaultLimits (Some (mkBroker "d2.2xlarge" 80 30))
       "follower" 60 = Returns (r1, None) ∧
     replicationHeadroom defaultLimits (Some (mkBroker "d2.2xlarge" 100 40))
       "follower" 50 = Returns (r2, None) ∧
     (r1 <? r2) = false).
Proof.
  apply (NewLimits_rates_monotone defaultConfig defaultLimits
           (mkBroker "d2.2xlarge" 80 30) (mkBroker "d2.2xlarge" 100 40)
           60 50 120); vm_compute; reflexivity.
Defined.
End NewLimitsProperties.

(** ** Further properties of the administrative API *)

(** A store for the examples that keeps the override records as they
    are, one under each path. *)
Definition recordStore := gmap string ThrottleOverrideConfig.

Definition recordSet (zk : recordStore) (p : string)
    (c : ThrottleOverrideConfig) : recordStore * option error :=
  (<[p := c]> zk, None).

Definition recordGet (zk : recordStore) (p : string)
  : option ThrottleOverrideConfig * option error :=
  match zk !! p with
  | Some c => (Some c, None)
  | None => (None, Some "node does not exist"%string)
  end.

Section APIProperties.
Context {ZK : Type} `{!Handler ZK}.
Variable setThrottleOverride :
  ZK → string → ThrottleOverrideConfig → ZK * option error.
Variable getThrottleOverride :
  ZK → string → option ThrottleOverrideConfig * option error.
Variable parseRateParam : Request → Z * option error.
Variable parseAutoRemoveParam : Request → bool * option error.
Variable parsePaths : Request → list string.
Variable logReq : Request → string.

(** X10: a request to the throttle endpoint whose method is neither GET
    nor POST, and a request to the remove endpoint whose method is not
    POST, is logged and answered with status 405 and the text
    [disallowed method]; the store is the one that was given, and
    neither override function is called. *)
Theorem method_not_allowed (path : string) (w : Response) (req : Request)
    (zk : ZK) :
  Method req ≠ "POST"%string →
  (Method req ≠ "GET"%string →
   throttleGetSet setThrottleOverride getThrottleOverride parseRateParam
     parseAutoRemoveParam parsePaths logReq path w req zk
   = ({| status := Some 405%Z; body := body w +:+ "disallowed method" +:+ nl |},
      zk, [logReq req])) ∧
  throttleRemove setThrottleOverride logReq path w req zk
  = ({| status := Some 405%Z; body := body w +:+ "disallowed method" +:+ nl |},
     zk, [logReq req]).
Proof.
  intros HP. apply String.eqb_neq in HP.
  unfold throttleGetSet, throttleRemove. rewrite HP. split; [|reflexivity].
  intros HG. apply String.eqb_neq in HG. rewrite HG. reflexivity.
Qed.

(** X11: a POST to the throttle endpoint whose parameters parse and whose
    override is stored, followed by a GET on a store that returns the
    stored override: the POST reports the rate and the autoremove flag
    it has set, and the GET reports the same rate and flag, except for
    the rate 0, which the POST reports as set and the GET as no override
    being set. *)
Theorem set_then_get (path : string) (w w' : Response) (req req' : Request)
    (zk zk1 : ZK) (rate : Z) (autoRemove : bool) :
  Method req = "POST"%string → Method req' = "GET"%string →
  parseRateParam req = (rate, None) →
  parseAutoRemoveParam req = (autoRemove, None) →
  setThrottleOverride zk path {| Rate := rate; AutoRemove := autoRemove |}
    = (zk1, None) →
  getThrottleOverride zk1 path
    = (Some {| Rate := rate; AutoRemove := autoRemove |}, None) →
  throttleGetSet setThrottleOverride getThrottleOverride parseRateParam
    parseAutoRemoveParam parsePaths logReq path w req zk
  = (WriteString ("throttle successfully set to " +:+ pretty rate
                  +:+ "MB/s, autoremove==" +:+ showBool autoRemove +:+ nl) w,
     zk1, [logReq req]) ∧
  throttleGetSet setThrottleOverride getThrottleOverride parseRateParam
    parseAutoRemoveParam parsePaths logReq path w' req' zk1
  = (WriteString
       (if (rate =? 0)%Z then "no throttle override is set" +:+ nl
        else "a throttle override is configured at " +:+ pretty rate
             +:+ "MB/s, autoremove==" +:+ showBool autoRemove +:+ nl) w',
     zk1, [logReq req']).
Proof.
  intros HP HG Hr Ha Hs Hg.
  unfold throttleGetSet, setThrottle, getThrottle.
  rewrite HP, HG. cbn [String.eqb Ascii.eqb Bool.eqb].
  rewrite Hr, Ha, Hs, Hg. cbn [Rate AutoRemove].
  split; [reflexivity|]. destruct (rate =? 0)%Z; reflexivity.
Qed.

(** X12: a POST to the remove endpoint stores the record of rate 0
    without autoremove, whatever the request carries, and reports the
    removal; a GET on a store that returns this record reports that no
    override is set. *)
Theorem remove_then_get (path : string) (w w' : Response) (req req' : Request)
    (zk zk1 : ZK) :
  Method req = "POST"%string → Method req' = "GET"%string →
  setThrottleOverride zk path {| Rate := 0; AutoRemove := false |}
    = (zk1, None) →
  getThrottleOverride zk1 path
    = (Some {| Rate := 0; AutoRemove := false |}, None) →
  throttleRemove setThrottleOverride logReq path w req zk
  = (WriteString ("throttle successfully removed" +:+ nl) w, zk1,
     [logReq req]) ∧
  throttleGetSet setThrottleOverride getThrottleOverride parseRateParam
    parseAutoRemoveParam parsePaths logReq path w' req' zk1
  = (WriteString ("no throttle override is set" +:+ nl) w', zk1,
     [logReq req']).
Proof.
  intros HP HG Hs Hg.
  unfold throttleRemove, throttleGetSet, removeThrottle, getThrottle.
  rewrite HP, HG. cbn [String.eqb Ascii.eqb Bool.eqb].
  rewrite Hs, Hg. split; reflexivity.
Qed.

(** X13: a second initialization changes nothing. On a store where a
    node created with no data exists afterwards and reads as empty, and
    where an override that has been set exists afterwards and does not
    read as a bare integer, [initAPI] on the settings and the store that
    an earlier [initAPI] has left serves the same settings on the same
    store: it creates nothing, migrates nothing and logs nothing. *)
Theorem initAPI_twice (c c1 : APIConfig) (zk zk1 : ZK) (p : string)
    (logged : list string) :
  (∀ z q z', zkCreate z q EmptyString = (z', None) →
     zkExists z' q = (true, None) ∧ fst (zkGet z' q) = EmptyString) →
  (∀ z q cfg z', setThrottleOverride z q cfg = (z', None) →
     zkExists z' q = (true, None) ∧ Atoi (fst (zkGet z' q)) = None) →
  initAPI setThrottleOverride c zk = Serving c1 p zk1 logged →
  initAPI setThrottleOverride c1 zk1 = Serving c1 p zk1 [].
Proof.
  intros Hcreate Hset. unfold initAPI. cbn [ZKPrefix Listen].
  set (path := "/" +:+ ZKPrefix c +:+ "/" +:+ overrideRateZnode).
  destruct (zkExists zk path) as [[|] [err|]] eqn:Ex; try discriminate.
  - destruct (zkGet zk path) as [r e] eqn:Eg.
    destruct (Atoi r) as [rate|] eqn:Ea.
    + destruct (setThrottleOverride zk path _) as [zk' [err|]] eqn:Es;
        [discriminate|].
      intros [= <- <- <- <-]. cbn [ZKPrefix Listen]. fold path.
      destruct (Hset _ _ _ _ Es) as [Ex' Ea'].
      rewrite Ex'. destruct (zkGet zk' path) as [r' e'].
      cbn [fst] in Ea'. rewrite Ea'. reflexivity.
    + intros [= <- <- <- <-]. cbn [ZKPrefix Listen]. fold path.
      rewrite Ex, Eg, Ea. reflexivity.
  - destruct (zkCreate zk ("/" +:+ ZKPrefix c) EmptyString)
      as [zk' [err|]] eqn:Ec1; [discriminate|].
    destruct (zkCreate zk' path EmptyString) as [zk'' [err|]] eqn:Ec2;
      [discriminate|].
    intros [= <- <- <- <-]. cbn [ZKPrefix Listen]. fold path.
    destruct (Hcreate _ _ _ Ec2) as [Ex' Eg'].
    rewrite Ex'. destruct (zkGet zk'' path) as [r' e'].
    cbn [fst] in Eg'. rewrite Eg'. reflexivity.
Qed.

(** X14: whenever [initAPI] ends with the routes served, the settings
    are the given ones with the rate setting named [override_rate], the
    override path is the prefix followed by [override_rate], and the
    migration is logged only when it has taken place: the record was
    there, its content parsed as a bare integer, and the override of
    that rate without autoremove was set, leaving the store that is
    served. Otherwise nothing is logged. *)
Theorem initAPI_serving (c c1 : APIConfig) (zk zk1 : ZK) (p : string)
    (logged : list string) :
  initAPI setThrottleOverride c zk = Serving c1 p zk1 logged →
  c1 = {| Listen := Listen c; ZKPrefix := ZKPrefix c;
          RateSetting := "override_rate" |} ∧
  p = "/" +:+ ZKPrefix c +:+ "/" +:+ "override_rate" ∧
  (logged = [] ∨
   (logged = ["Throttle override config format updated"%string] ∧
    zkExists zk p = (true, None) ∧
    ∃ rate, Atoi (fst (zkGet zk p)) = Some rate ∧
            setThrottleOverride zk p {| Rate := rate; AutoRemove := false |}
            = (zk1, None))).
Proof.
  unfold initAPI. cbn [ZKPrefix Listen].
  change overrideRateZnode with "override_rate"%string.
  set (path := "/" +:+ ZKPrefix c +:+ "/" +:+ "override_rate").
  destruct (zkExists zk path) as [[|] [err|]] eqn:Ex; try discriminate.
  - destruct (zkGet zk path) as [r e] eqn:Eg.
    destruct (Atoi r) as [rate|] eqn:Ea.
    + destruct (setThrottleOverride zk path _) as [zk' [err|]] eqn:Es;
        [discriminate|].
      intros [= <- <- <- <-]. do 2 (split; [reflexivity|]).
      right. split; [reflexivity|]. split; [exact Ex|].
      exists rate. rewrite Eg. split; assumption.
    + intros [= <- <- <- <-]. auto.
  - destruct (zkCreate zk ("/" +:+ ZKPrefix c) EmptyString)
      as [zk' [err|]]; [discriminate|].
    destruct (zkCreate zk' path EmptyString) as [zk'' [err|]];
      [discriminate|].
    intros [= <- <- <- <-]. auto.
Qed.
End APIProperties.

Lemma method_not_allowed_witness :
  (Method {| Method := "DELETE"; URLPath := "/throttle";
             RawQuery := EmptyString |} ≠ "GET"%string →
   throttleGetSet recordSet recordGet exampleParseRate exampleParseAutoRemove
     exampleParsePaths exampleLogReq overridePath emptyResponse
     {| Method := "DELETE"; URLPath := "/throttle"; RawQuery := EmptyString |}
     ∅
   = ({| status := Some 405%Z;
         body := body emptyResponse +:+ "disallowed method" +:+ nl |},
      ∅, ["DELETE /throttle"%string])) ∧
  throttleRemove recordSet exampleLogReq overridePath emptyResponse
    {| Method := "DELETE"; URLPath := "/throttle"; RawQuery := EmptyString |}
    ∅
  = ({| status := Some 405%Z;
        body := body emptyResponse +:+ "disallowed method" +:+ nl |},
     ∅, ["DELETE /throttle"%string]).
Proof.
  apply (method_not_allowed recordSet recordGet exampleParseRate
           exampleParseAutoRemove exampleParsePaths exampleLogReq
           overridePath emptyResponse
           {| Method := "DELETE"; URLPath := "/throttle";
              RawQuery := EmptyString |} ∅).
  discriminate.
Defined.

(** Setting the rate 0 and reading it back. *)
Lemma set_then_get_witness :
  throttleGetSet recordSet recordGet exampleParseRate exampleParseAutoRemove
    exampleParsePaths exampleLogReq overridePath emptyResponse
    {| Method := "POST"; URLPath := "/throttle"; RawQuery := "0" |} ∅
  = (WriteString ("throttle successfully set to " +:+ pretty 0%Z
                  +:+ "MB/s, autoremove==" +:+ showBool false +:+ nl)
       emptyResponse,
     <[overridePath := {| Rate := 0; AutoRemove := false |}]> ∅,
     ["POST /throttle"%string]) ∧
  throttleGetSet recordSet recordGet exampleParseRate exampleParseAutoRemove
    exampleParsePaths exampleLogReq overridePath emptyResponse
    {| Method := "GET"; URLPath := "/throttle"; RawQuery := EmptyString |}
    (<[overridePath := {| Rate := 0; AutoRemove := false |}]> ∅)
  = (WriteString
       (if (0 =? 0)%Z then "no throttle override is set" +:+ nl
        else "a throttle override is configured at " +:+ pretty 0%Z
             +:+ "MB/s, autoremove==" +:+ showBool false +:+ nl)
       emptyResponse,
     <[overridePath := {| Rate := 0; AutoRemove := false |}]> ∅,
     ["GET /throttle"%string]).
Proof.
  apply (set_then_get recordSet recordGet exampleParseRate
           exampleParseAutoRemove exampleParsePaths exampleLogReq
           overridePath emptyResponse emptyResponse
           {| Method := "POST"; URLPath := "/throttle"; RawQuery := "0" |}
           {| Method := "GET"; URLPath := "/throttle";
              RawQuery := EmptyString |}
           ∅ (<[overridePath := {| Rate := 0; AutoRemove := false |}]> ∅)
           0%Z false); reflexivity.
Defined.

Lemma remove_then_get_witness :
  throttleRemove recordSet exampleLogReq overridePath emptyResponse
    {| Method := "POST"; URLPath := "/throttle/remove";
       RawQuery := EmptyString |}
    (<[overridePath := {| Rate := 200; AutoRemove := true |}]> ∅)
  = (WriteString ("throttle successfully removed" +:+ nl) emptyResponse,
     <[overridePath := {| Rate := 0; AutoRemove := false |}]>
       (<[overridePath := {| Rate := 200; AutoRemove := true |}]> ∅),
     ["POST /throttle/remove"%string]) ∧
  throttleGetSet recordSet recordGet exampleParseRate exampleParseAutoRemove
    exampleParsePaths exampleLogReq overridePath emptyResponse
    {| Method := "GET"; URLPath := "/throttle"; RawQuery := EmptyString |}
    (<[overridePath := {| Rate := 0; AutoRemove := false |}]>
       (<[overridePath := {| Rate := 200; AutoRemove := true |}]> ∅))
  = (WriteString ("no throttle override is set" +:+ nl) emptyResponse,
     <[overridePath := {| Rate := 0; AutoRemove := false |}]>
       (<[overridePath := {| Rate := 200; AutoRemove := true |}]> ∅),
     ["GET /throttle"%string]).
Proof.
  apply (remove_then_get recordSet recordGet exampleParseRate
           exampleParseAutoRemove exampleParsePaths exampleLogReq
           overridePath emptyResponse emptyResponse
           {| Method := "POST"; URLPath := "/throttle/remove";
              RawQuery := EmptyString |}
           {| Method := "GET"; URLPath := "/throttle";
              RawQuery := EmptyString |}
           (<[overridePath := {| Rate := 200; AutoRemove := true |}]> ∅)
           (<[overridePath := {| Rate := 0; AutoRemove := false |}]>
              (<[overridePath := {| Rate := 200; AutoRemove := true |}]> ∅)));
    reflexivity.
Defined.

(** The store in memory keeps the laws that [initAPI_twice] asks for. *)
Lemma memHandler_create (z : memStore) (q : string) (z' : memStore) :
  zkCreate z q EmptyString = (z', None) →
  zkExists z' q = (true, None) ∧ fst (zkGet z' q) = EmptyString.
Proof.
  unfold zkCreate, zkExists, zkGet, memHandler.
  destruct (z !! q) eqn:E; [discriminate|]. intros [= <-].
  pose proof (lookup_insert_eq z q EmptyString) as L.
  unfold memStore in *. rewrite L. split; reflexivity.
Qed.

Lemma exampleEncode_not_integer c : Atoi (exampleEncode c) = None.
Proof. reflexivity. Qed.

Lemma exampleSet_stored (z : memStore) (q : string)
    (cfg : ThrottleOverrideConfig) (z' : memStore) :
  exampleSet z q cfg = (z', None) →
  zkExists z' q = (true, None) ∧ Atoi (fst (zkGet z' q)) = None.
Proof.
  unfold exampleSet, specSetThrottleOverride.
  unfold zkSet, zkExists, zkGet, memHandler.
  destruct (z !! q) eqn:E; [|discriminate]. intros [= <-].
  pose proof (lookup_insert_eq z q (exampleEncode cfg)) as L.
  unfold memStore in *. rewrite L. split; [reflexivity|].
  apply exampleEncode_not_integer.
Qed.

Lemma initAPI_twice_witness :
  initAPI exampleSet
    {| Listen := "localhost:8080"; ZKPrefix := "autothrottle";
       RateSetting := "override_rate" |}
    (<[overridePath := exampleEncode {| Rate := 150; AutoRemove := false |}]>
       legacyStore)
  = Serving
      {| Listen := "localhost:8080"; ZKPrefix := "autothrottle";
         RateSetting := "override_rate" |}
      overridePath
      (<[overridePath := exampleEncode {| Rate := 150; AutoRemove := false |}]>
         legacyStore)
      [].
Proof.
  apply (initAPI_twice exampleSet apiConfig _ legacyStore _ _
           ["Throttle override config format updated"%string]).
  - exact memHandler_create.
  - exact exampleSet_stored.
  - vm_compute. reflexivity.
Defined.

Lemma initAPI_serving_witness :
  {| Listen := "localhost:8080"; ZKPrefix := "autothrottle";
     RateSetting := "override_rate" |}
  = {| Listen := Listen apiConfig; ZKPrefix := ZKPrefix apiConfig;
       RateSetting := "override_rate" |} ∧
  overridePath = "/" +:+ ZKPrefix apiConfig +:+ "/" +:+ "override_rate" ∧
  (["Throttle override config format updated"%string] = [] ∨
   (["Throttle override config format updated"%string]
    = ["Throttle override config format updated"%string] ∧
    zkExists legacyStore overridePath = (true, None) ∧
    ∃ rate, Atoi (fst (zkGet legacyStore overridePath)) = Some rate ∧
            exampleSet legacyStore overridePath
              {| Rate := rate; AutoRemove := false |}
            = (<[overridePath :=
                   exampleEncode {| Rate := 150; AutoRemove := false |}]>
                 legacyStore, None))).
Proof.
  apply (initAPI_serving exampleSet apiConfig).
  vm_compute. reflexivity.
Defined.
